(** * Minimax tic-tac-toe: the board and the search of [src/app.ts]

    A shallow embedding of the classes [Board] and [Player] and of the
    function [getBestMoveAndExecuteCallback], followed by the properties
    of the specification checked against them.

    JavaScript numbers that the program uses (cell positions, depths,
    scores) are integers and are modelled in [Z].  An array of cells is a
    [list CellValue]; reading it out of range gives [undefined], which is
    [None] here. *)

From Stdlib Require Import ZArith Lia List Sorted Ascii DecimalString DecimalZ.
From stdpp Require Import base list gmap strings.

Open Scope Z_scope.

(** ** Cells and game states *)

(** [enum CellValue { Empty = '', X = 'X', O = 'O' }] *)
Inductive CellValue : Set := Empty | X | O.

#[global] Instance CellValue_eq_dec : EqDecision CellValue.
Proof. solve_decision. Defined.

(** The [winner] field of [GameState]: [CellValue.O | CellValue.X | 'DRAW'].
    [calculateGameState] stores the cell it read under a type cast, so the
    symbol is kept as the cell value itself. *)
Inductive Winner : Set := Symbol (c : CellValue) | DRAW.

#[global] Instance Winner_eq_dec : EqDecision Winner.
Proof. solve_decision. Defined.

(** [interface GameState]: the two optional fields are [None] when absent
    (or [undefined]). *)
Record GameState : Set := mkGameState {
  winnerPositions : option (Z * Z * Z);
  winner : option Winner;
  finished : bool
}.

#[global] Instance GameState_eq_dec : EqDecision GameState.
Proof. solve_decision. Defined.

Definition WINNER_POSITIONS : list (Z * Z * Z) :=
  [ (0, 1, 2);
    (3, 4, 5);
    (6, 7, 8);
    (0, 3, 6);
    (1, 4, 7);
    (2, 5, 8);
    (0, 4, 8);
    (2, 4, 6) ].

(** ** Completions *)

(** The two [throw new Error(...)] of [Board.insert], named after what they
    report: "La posición ... no existe!" and "No es un símbolo permitido!". *)
Inductive Error : Set :=
| InvalidPosition (position : Z)
| InvalidSymbol.

(** How a call ends: it returns a value or it throws. *)
Inductive Completion (A : Type) : Type :=
| Normal (a : A)
| Throw (e : Error).
Arguments Normal {A} a.
Arguments Throw {A} e.

(** ** Arrays *)

(** [arr[position]]: [undefined] out of range. *)
Definition at_index {A} (arr : list A) (position : Z) : option A :=
  if bool_decide (position < 0) then None else arr !! Z.to_nat position.

(** [arr.reduce((acc, current, index) => ..., initial)], the index counted
    from [index]. *)
Fixpoint reduce_from {A B} (f : B → A → Z → B) (arr : list A) (index : Z) (acc : B) : B :=
  match arr with
  | [] => acc
  | current :: rest => reduce_from f rest (index + 1) (f acc current index)
  end.

Definition reduce {A B} (f : B → A → Z → B) (arr : list A) (initial : B) : B :=
  reduce_from f arr 0 initial.

(** JavaScript truthiness of a cell read: [''] and [undefined] are falsy. *)
Definition truthy (v : option CellValue) : bool :=
  match v with
  | Some X | Some O => true
  | Some Empty | None => false
  end.

(** ** Class [Board]

    The methods are functions of the array [this._state]; [insert], which
    assigns into the array, returns the array it leaves behind.  Which
    [Board] objects share an array is the matter of the heap of section
    [Player]. *)
Module Board.

(** [this._state.every(cell => cell === CellValue.Empty)] *)
Definition isEmpty (_state : list CellValue) : bool :=
  forallb (λ cell, bool_decide (cell = Empty)) _state.

(** [this._state.every(cell => cell !== CellValue.Empty)] *)
Definition isFull (_state : list CellValue) : bool :=
  forallb (λ cell, bool_decide (cell ≠ Empty)) _state.

(** [insert(symbol, position)].  The result pairs the completion with the
    array after the call.  When the cell read is [undefined] because
    [position], within [0,8], lies at or past the end of a shorter array,
    the program assigns the cell and returns [true]: the array grows, with
    holes in it when [position] is beyond its end, which no
    [list CellValue] denotes.  The model has no result there ([None]);
    what is proved of a successful [insert] is proved of positions whose
    cell exists, as every position within [0,8] of a nine-cell board. *)
Definition insert (symbol : CellValue) (position : Z) (_state : list CellValue)
  : option (Completion bool * list CellValue) :=
  if bool_decide (position < 0) || bool_decide (position > 8) then
    Some (Throw (InvalidPosition position), _state)
  else if negb (bool_decide (symbol ∈ [O; X])) then
    Some (Throw InvalidSymbol, _state)
  else if truthy (at_index _state position) then
    Some (Normal false, _state)
  else
    match at_index _state position with
    | Some _ => Some (Normal true, <[Z.to_nat position := symbol]> _state)
    | None => None
    end.

(** [getAvailableMoves()] *)
Definition getAvailableMoves (_state : list CellValue) : list Z :=
  reduce (λ positions currentCell index,
            if bool_decide (currentCell = Empty)
            then positions ++ [index]
            else positions)
         _state [].

(** [calculateGameState(position1, position2, position3)] *)
Definition calculateGameState (_state : list CellValue) (position1 position2 position3 : Z)
  : GameState :=
  let value1 := at_index _state position1 in
  let value2 := at_index _state position2 in
  let value3 := at_index _state position3 in
  let finished :=
    bool_decide (value1 ≠ Some Empty)
    && bool_decide (value2 ≠ Some Empty)
    && bool_decide (value3 ≠ Some Empty)
    && bool_decide (value1 = value2)
    && bool_decide (value1 = value3) in
  if finished
  then {| finished := true;
          winner := Symbol <$> value1;
          winnerPositions := Some (position1, position2, position3) |}
  else {| finished := false; winner := None; winnerPositions := None |}.

(** [getFinishState()] *)
Definition getFinishState (_state : list CellValue) : GameState :=
  if isEmpty _state then
    {| finished := false; winner := None; winnerPositions := None |}
  else if isFull _state then
    {| winner := Some DRAW; finished := true; winnerPositions := None |}
  else
    let anyWinner :=
      List.find (λ state : GameState, finished state)
        (map (λ '(p1, p2, p3), calculateGameState _state p1 p2 p3) WINNER_POSITIONS) in
    match anyWinner with
    | Some state => state
    | None => {| finished := false; winner := None; winnerPositions := None |}
    end.

End Board.

(** Positions of the [Empty] cells of [cells], the first cell being at
    position [index]. *)
Fixpoint empties_from (cells : list CellValue) (index : Z) : list Z :=
  match cells with
  | [] => []
  | cell :: rest =>
      if bool_decide (cell = Empty)
      then index :: empties_from rest (index + 1)
      else empties_from rest (index + 1)
  end.

(** Number of cells that hold a symbol. *)
Definition occupied (cells : list CellValue) : nat :=
  length (filter (λ cell, cell ≠ Empty) cells).

(** A line of three positions matches when its three cells hold the same
    symbol. *)
Definition line_matches (cells : list CellValue) (line : Z * Z * Z) : Prop :=
  let '(p1, p2, p3) := line in
  ∃ c, c ≠ Empty ∧ at_index cells p1 = Some c
       ∧ at_index cells p2 = Some c ∧ at_index cells p3 = Some c.

(** ** Numbers and strings *)

(** What a [Map<number, number | string>] holds. *)
Inductive NumberOrString : Set :=
| IsNumber (n : Z)
| IsString (s : string).

(** What [getBestMove] returns and the callback receives: a number, or
    [undefined] when the tally has no entry for the best score. *)
Inductive Value : Set :=
| Num (n : Z)
| Undefined.

(** Conversion of an integer by a template literal: its decimal numeral. *)
Definition number_to_string (n : Z) : string :=
  NilZero.string_of_int (Z.to_int n).

(** [`${ v }`] *)
Definition to_string (v : NumberOrString) : string :=
  match v with
  | IsNumber n => number_to_string n
  | IsString s => s
  end.

(** [s.split(',')[0]]: what precedes the first comma. *)
Fixpoint split_comma_first (s : string) : string :=
  match s with
  | EmptyString => EmptyString
  | String c rest =>
      if Ascii.eqb c (","%char : Ascii.ascii) then EmptyString
      else String c (split_comma_first rest)
  end.

(** Unary [+] on a string, on decimal numerals; other strings (which give a
    number by other rules, or [NaN]) are not modelled. *)
Definition unary_plus (s : string) : option Z :=
  Z.of_int <$> NilZero.int_of_string s.

(** ** The heap and the class [Player]

    A [Board] object holds a reference to its array, and [getState] hands
    that reference out, so arrays live in a heap, addressed by their
    position in it.  [nodesMap] is the map of the one [Player] the calls
    are made on.  The callback is modelled by the trace of the arguments it
    was called with. *)

Definition loc : Set := nat.

Record Board : Set := mkBoard { _state : loc }.

Record World : Type := mkWorld {
  arrays : list (list CellValue);
  nodesMap : gmap Z NumberOrString;
  calls : list Value
}.

Definition set_arrays (a : list (list CellValue)) (w : World) : World :=
  {| arrays := a; nodesMap := nodesMap w; calls := calls w |}.

Definition set_nodesMap (m : gmap Z NumberOrString) (w : World) : World :=
  {| arrays := arrays w; nodesMap := m; calls := calls w |}.

Definition set_calls (c : list Value) (w : World) : World :=
  {| arrays := arrays w; nodesMap := nodesMap w; calls := c |}.

(** A computation on the heap: no result in the model ([None]), or a
    completion and the world it leaves. *)
Definition M (A : Type) : Type := World → option (Completion A * World).

Definition ret {A} (a : A) : M A := λ w, Some (Normal a, w).

Definition bind {A B} (m : M A) (k : A → M B) : M B :=
  λ w, match m w with
       | Some (Normal a, w') => k a w'
       | Some (Throw e, w') => Some (Throw e, w')
       | None => None
       end.

Definition unmodelled {A} : M A := λ _, None.

Declare Scope M_scope.
Delimit Scope M_scope with M.
Notation "x <- m ;; k" := (bind m (λ x, k))
  (at level 100, m at next level, right associativity) : M_scope.
Notation "m ;; k" := (bind m (λ _, k))
  (at level 100, right associativity) : M_scope.
Open Scope M_scope.

(** Reading the array behind a reference. *)
Definition read_array (l : loc) : M (list CellValue) :=
  λ w, match arrays w !! l with
       | Some cells => Some (Normal cells, w)
       | None => None
       end.

(** [[...arr]]: a fresh array with the cells of [arr]. *)
Definition spread (l : loc) : M loc :=
  cells <- read_array l;;
  λ w, Some (Normal (length (arrays w)), set_arrays (arrays w ++ [cells]) w).

(** The model of [new Board(arr)]: the object keeps the reference. *)
Definition new_Board (arr : loc) : M Board := ret (mkBoard arr).

(** [board.getState()] *)
Definition getState (board : Board) : loc := _state board.

(** Calls of the methods of a [Board] object. *)
Definition call_insert (board : Board) (symbol : CellValue) (position : Z) : M bool :=
  λ w, match arrays w !! _state board with
       | Some cells =>
           match Board.insert symbol position cells with
           | Some (c, cells') => Some (c, set_arrays (<[_state board := cells']> (arrays w)) w)
           | None => None
           end
       | None => None
       end.

Definition call_getAvailableMoves (board : Board) : M (list Z) :=
  cells <- read_array (_state board);;
  ret (Board.getAvailableMoves cells).

Definition call_getFinishState (board : Board) : M GameState :=
  cells <- read_array (_state board);;
  ret (Board.getFinishState cells).

(** [callback(returnValue)] *)
Definition callback (v : Value) : M unit :=
  λ w, Some (Normal tt, set_calls (calls w ++ [v]) w).

(** [this.nodesMap.clear()] *)
Definition nodesMap_clear : M unit :=
  λ w, Some (Normal tt, set_nodesMap ∅ w).

(** The tally step of [minimax]:
    [moves = nodesMap.has(nodeValue) ? `${ nodesMap.get(nodeValue) },${ index }` : index]
    then [nodesMap.set(nodeValue, moves)], on the map. *)
Definition tally (nodeValue index : Z) (m : gmap Z NumberOrString) : gmap Z NumberOrString :=
  let moves :=
    match m !! nodeValue with
    | Some v => IsString (to_string v +:+ "," +:+ number_to_string index)
    | None => IsNumber index
    end in
  <[nodeValue := moves]> m.

Definition nodesMap_tally (nodeValue index : Z) : M unit :=
  λ w, Some (Normal tt, set_nodesMap (tally nodeValue index (nodesMap w)) w).

(** The value [getBestMoveAndExecuteCallback] computes from [moves.get(best)]. *)
Definition returnValue_of (bestMovement : option NumberOrString) : option Value :=
  match bestMovement with
  | Some (IsString s) => Num <$> unary_plus (split_comma_first s)
  | Some (IsNumber n) => Some (Num n)
  | None => Some Undefined
  end.

(** [getBestMoveAndExecuteCallback(moves, best, callback)], [moves] being
    [this.nodesMap]. *)
Definition getBestMoveAndExecuteCallback (best : Z) : M Value :=
  λ w,
    let bestMovement := nodesMap w !! best in
    match returnValue_of bestMovement with
    | Some returnValue => (callback returnValue;; ret returnValue) w
    | None => None
    end.

Module Player.
Section Player.

(** [private maxDepth: number = -1] *)
Variable maxDepth : Z.

Section Minimax.

(** [this.getBestMove], as [minimax] calls it. *)
Variable getBestMove : Board → bool → Z → M Value.

(** The body of [board.getAvailableMoves().forEach(index => ...)], run
    over the moves; [best] is the variable the closure updates.  A child
    value that is not a number would make [op] give [NaN]: not modelled. *)
Fixpoint forEach_move (op : Z → Z → Z) (cellValue : CellValue)
    (maximizing : bool) (board : Board) (depth : Z)
    (moves : list Z) (best : Z) : M Z :=
  match moves with
  | [] => ret best
  | index :: rest =>
      arr <- spread (getState board);;
      nextBoard <- new_Board arr;;
      call_insert nextBoard cellValue index;;
      nodeValue <- getBestMove nextBoard (negb maximizing) (depth + 1);;
      match nodeValue with
      | Num nodeValue =>
          let best := op best nodeValue in
          (if bool_decide (depth = 0) then nodesMap_tally nodeValue index else ret tt);;
          forEach_move op cellValue maximizing board depth rest best
      | Undefined => unmodelled
      end
  end.

(** [minimax(maximizing, board, callback, depth)] *)
Definition minimax (maximizing : bool) (board : Board) (depth : Z) : M Value :=
  let '(best, op, cellValue) :=
    if negb maximizing then (100, Z.min, O) else (-100, Z.max, X) in
  moves <- call_getAvailableMoves board;;
  best <- forEach_move op cellValue maximizing board depth moves best;;
  if bool_decide (depth = 0) then getBestMoveAndExecuteCallback best
  else ret (Num best).

End Minimax.

(** [getBestMove(board, maximizing, callback, depth)]; [fuel] bounds the
    nesting of the calls. *)
Fixpoint getBestMove (fuel : nat) (board : Board) (maximizing : bool) (depth : Z)
  : M Value :=
  match fuel with
  | 0%nat => unmodelled
  | S fuel =>
      (if bool_decide (depth = 0) then nodesMap_clear else ret tt);;
      state <- call_getFinishState board;;
      if finished state || bool_decide (depth = maxDepth) then
        if bool_decide (winner state = Some (Symbol X)) then ret (Num (100 - depth))
        else if bool_decide (winner state = Some (Symbol O)) then ret (Num (-100 + depth))
        else ret (Num 0)
      else
        minimax (getBestMove fuel) maximizing board depth
  end.

End Player.
End Player.

(** A world whose heap holds one array, with a [Player] just constructed
    and no callback call yet; the board on that array. *)
Definition world_of (cells : list CellValue) : World :=
  {| arrays := [cells]; nodesMap := ∅; calls := [] |}.

Definition board0 : Board := mkBoard 0%nat.

(** ** The search read without the heap

    What the calls of [getBestMove] below the root compute depends on
    the cells of the board only.  [evaluate] is that score as a function
    of the cells; [getBestMove_evaluates] below proves that the calls on
    the heap return it. *)

(** The array a move leaves in the fresh copy. *)
Definition child (cells : list CellValue) (cellValue : CellValue) (index : Z)
  : list CellValue :=
  <[Z.to_nat index := cellValue]> cells.

(** The three variables [minimax] sets from [maximizing]. *)
Definition best_of (maximizing : bool) : Z := if negb maximizing then 100 else -100.
Definition op_of (maximizing : bool) : Z → Z → Z := if negb maximizing then Z.min else Z.max.
Definition cellValue_of (maximizing : bool) : CellValue := if negb maximizing then O else X.

Section Evaluate.

Variable maxDepth : Z.

(** The score of [cells] at ply [depth]: the leaf score when the board is
    finished or the depth cap is reached, and otherwise [Math.max] or
    [Math.min] folded over the scores of the boards the moves leave. *)
Fixpoint evaluate (fuel : nat) (cells : list CellValue) (maximizing : bool) (depth : Z)
  : option Z :=
  match fuel with
  | 0%nat => None
  | S fuel =>
      let state := Board.getFinishState cells in
      if finished state || bool_decide (depth = maxDepth) then
        if bool_decide (winner state = Some (Symbol X)) then Some (100 - depth)
        else if bool_decide (winner state = Some (Symbol O)) then Some (-100 + depth)
        else Some 0
      else
        scores ← mapM (λ index, evaluate fuel (child cells (cellValue_of maximizing) index)
                                  (negb maximizing) (depth + 1))
                      (Board.getAvailableMoves cells);
        Some (foldl (op_of maximizing) (best_of maximizing) scores)
  end.

(** The scores of the moves of the root, in the order of the moves. *)
Definition move_scores (cells : list CellValue) (maximizing : bool) : option (list Z) :=
  mapM (λ index, evaluate 9 (child cells (cellValue_of maximizing) index)
                   (negb maximizing) 1)
       (Board.getAvailableMoves cells).

End Evaluate.

(** The world after [extra] arrays were allocated. *)
Definition grow (extra : list (list CellValue)) (w : World) : World :=
  set_arrays (arrays w ++ extra) w.

(** The tally after the pairs of a score and a move, in their order. *)
Definition tally_all (pairs : list (Z * Z)) (m : gmap Z NumberOrString)
  : gmap Z NumberOrString :=
  foldl (λ m '(nodeValue, index), tally nodeValue index m) m pairs.

(** The string [first,i1,i2,...]. *)
Definition comma_separated (first : Z) (rest : list Z) : string :=
  foldl (λ s index, s +:+ "," +:+ number_to_string index) (number_to_string first) rest.

(** The entry of the tally for the moves [indices], in their order. *)
Definition bucket (indices : list Z) : option NumberOrString :=
  match indices with
  | [] => None
  | [index] => Some (IsNumber index)
  | index :: rest => Some (IsString (comma_separated index rest))
  end.

(** The moves whose score is [best], in the order of [pairs]. *)
Definition tied (best : Z) (pairs : list (Z * Z)) : list Z :=
  (filter (λ p, p.1 = best) pairs).*2.

(** [self] computes [evaluate] with [fuel]: called below the root on a
    board of nine cells with fewer than [fuel] empty cells, it returns the
    score of the cells and only allocates. *)
Definition evaluates (maxDepth : Z) (fuel : nat) (self : Board → bool → Z → M Value) : Prop :=
  ∀ board cells maximizing depth w,
    0 < depth → length cells = 9%nat →
    (length (Board.getAvailableMoves cells) < fuel)%nat →
    arrays w !! _state board = Some cells →
    ∃ v extra,
      evaluate maxDepth fuel cells maximizing depth = Some v
      ∧ self board maximizing depth w = Some (Normal (Num v), grow extra w).

(** A computation that leaves every array of the heap it started from as
    it was: whatever its completion, the heap it leaves is the initial one
    followed by fresh arrays. *)
Definition allocates_only {A} (m : M A) : Prop :=
  ∀ w c w', m w = Some (c, w') → ∃ extra, arrays w' = arrays w ++ extra.

(** ** Exchanging the two players *)

(** The cell with X and O exchanged, and the state that [getFinishState]
    then reports. *)
Definition swap_cell (c : CellValue) : CellValue :=
  match c with
  | Empty => Empty
  | X => O
  | O => X
  end.

Definition swap_winner (w : Winner) : Winner :=
  match w with
  | Symbol c => Symbol (swap_cell c)
  | DRAW => DRAW
  end.

Definition swap_state (state : GameState) : GameState :=
  {| winnerPositions := winnerPositions state;
     winner := swap_winner <$> winner state;
     finished := finished state |}.

(** ** Cells that [insert] refuses *)

(** Position [q] lies past the bound 8 of [insert] and holds [Empty], so
    that [getAvailableMoves] offers it; [first_beyond] is the lowest such
    position. *)
Definition beyond (cells : list CellValue) (q : Z) : Prop :=
  8 < q ∧ at_index cells q = Some Empty.

Definition first_beyond (cells : list CellValue) (q : Z) : Prop :=
  beyond cells q ∧ ∀ q', beyond cells q' → q ≤ q'.

(** [self], called below the root with enough fuel, ends in the model: it
    returns a number, or it throws the position error for the first
    position beyond the bound; it only allocates and does not call the
    callback. *)
Definition completes (fuel : nat) (self : Board → bool → Z → M Value) : Prop :=
  ∀ board cells maximizing depth w,
    0 < depth →
    (length (Board.getAvailableMoves cells) < fuel)%nat →
    arrays w !! _state board = Some cells →
    ∃ c w',
      self board maximizing depth w = Some (c, w')
      ∧ (∃ extra, arrays w' = arrays w ++ extra)
      ∧ calls w' = calls w
      ∧ ((∃ v, c = Normal (Num v))
         ∨ (∃ q, c = Throw (InvalidPosition q) ∧ first_beyond cells q)).

(** ** [Board.printFormattedBoard]

    A JavaScript string is the list of its UTF-16 code units, so that
    [slice] and lengths count what the program counts: the horizontal bar
    U+2015 is one unit. *)

Definition js_string : Set := list N.

(** The units of a string of ASCII characters. *)
Definition units (s : string) : js_string :=
  Ascii.N_of_ascii <$> String.list_ascii_of_string s.

(** The string a cell is: [''], ['X'] or ['O']. *)
Definition cell_units (cell : CellValue) : js_string :=
  match cell with
  | Empty => []
  | X => units "X"
  | O => units "O"
  end.

(** [cell ? ` ${ cell } |` : '   |'] *)
Definition cell_piece (cell : CellValue) : js_string :=
  if truthy (Some cell) then units " " ++ cell_units cell ++ units " |"
  else units "   |".

(** ['\n――― ――― ―――\n'] *)
Definition separator : js_string :=
  [10; 8213; 8213; 8213; 32; 8213; 8213; 8213; 32; 8213; 8213; 8213; 10]%N.

(** [s.slice(0, -1)] *)
Definition slice_0_minus_1 (s : js_string) : js_string := removelast s.

(** The callback of [this._state.forEach((cell, index) => ...)] run over the
    cells from position [index]; [formattedString] is the variable it
    updates. *)
Fixpoint forEach_cell (cells : list CellValue) (index : Z) (formattedString : js_string)
  : js_string :=
  match cells with
  | [] => formattedString
  | cell :: rest =>
      let formattedString := formattedString ++ cell_piece cell in
      let formattedString :=
        if bool_decide ((index + 1) `mod` 3 = 0) then
          let formattedString := slice_0_minus_1 formattedString in
          if bool_decide (index < 8) then formattedString ++ separator
          else formattedString
        else formattedString in
      forEach_cell rest (index + 1) formattedString
  end.

(** [printFormattedBoard()]: the arguments it passes to [console.log]. *)
Definition printFormattedBoard (_state : list CellValue) : list js_string :=
  [ units "%c" ++ forEach_cell _state 0 []; units "color: #c11dd4;font-size:16px" ].

(** The unit that shows a cell in the printed board. *)
Definition symbol_unit (cell : CellValue) : N :=
  match cell with
  | Empty => 32
  | X => 88
  | O => 79
  end.

(* ================================================================= *)
(** * Properties *)

Example isEmpty_fresh : Board.isEmpty (replicate 9 Empty) = true.
Proof. reflexivity. Qed.

Example getAvailableMoves_sample :
  Board.getAvailableMoves [X; O; Empty; Empty; Empty; Empty; O; Empty; X] = [2; 3; 4; 5; 7].
Proof. reflexivity. Qed.

Example getFinishState_row :
  Board.getFinishState [X; X; X; O; O; Empty; Empty; Empty; Empty]
  = {| finished := true; winner := Some (Symbol X); winnerPositions := Some (0, 1, 2) |}.
Proof. reflexivity. Qed.

(** ** Arrays *)

Lemma at_index_Some {A} (arr : list A) (p : Z) (x : A) :
  at_index arr p = Some x ↔ 0 ≤ p ∧ arr !! Z.to_nat p = Some x.
Proof.
  unfold at_index. case_bool_decide as Hp.
  - split; [done | intros [? _]; lia].
  - split; [intros ?; split; [lia | done] | by intros [_ ?]].
Qed.

Lemma at_index_of_nat {A} (arr : list A) (k : nat) :
  at_index arr (Z.of_nat k) = arr !! k.
Proof.
  unfold at_index. rewrite bool_decide_eq_false_2 by lia. by rewrite Nat2Z.id.
Qed.

Lemma at_index_is_Some {A} (arr : list A) (p : Z) :
  0 ≤ p < Z.of_nat (length arr) → is_Some (at_index arr p).
Proof.
  intros Hp. unfold at_index. rewrite bool_decide_eq_false_2 by lia.
  apply lookup_lt_is_Some. lia.
Qed.

Lemma at_index_insert_eq {A} (arr : list A) (p : Z) (x y : A) :
  at_index arr p = Some y → at_index (<[Z.to_nat p := x]> arr) p = Some x.
Proof.
  rewrite !at_index_Some. intros [Hp Hl]. split; [done|].
  apply list_lookup_insert_eq. by eapply lookup_lt_Some.
Qed.

Lemma at_index_insert_ne {A} (arr : list A) (p q : Z) (x : A) :
  0 ≤ p → q ≠ p → at_index (<[Z.to_nat p := x]> arr) q = at_index arr q.
Proof.
  intros Hp Hq. unfold at_index. case_bool_decide; [done|].
  apply list_lookup_insert_ne. lia.
Qed.

(** ** [getAvailableMoves] *)

Lemma reduce_from_empties (cells : list CellValue) (index : Z) (acc : list Z) :
  reduce_from (λ positions currentCell index,
                 if bool_decide (currentCell = Empty)
                 then positions ++ [index] else positions) cells index acc
  = acc ++ empties_from cells index.
Proof.
  revert index acc. induction cells as [|cell rest IH]; intros index acc; simpl.
  - by rewrite app_nil_r.
  - rewrite IH. case_bool_decide; [|done]. by rewrite <- app_assoc.
Qed.

Lemma getAvailableMoves_empties (cells : list CellValue) :
  Board.getAvailableMoves cells = empties_from cells 0.
Proof. unfold Board.getAvailableMoves, reduce. by rewrite reduce_from_empties. Qed.

Lemma elem_of_empties_from (cells : list CellValue) (index p : Z) :
  p ∈ empties_from cells index
  ↔ ∃ k : nat, p = index + Z.of_nat k ∧ cells !! k = Some Empty.
Proof.
  revert index. induction cells as [|cell rest IH]; intros index; simpl.
  - split; [by intros ?%elem_of_nil | by intros (k & _ & ?)].
  - assert (p ∈ empties_from rest (index + 1)
            ↔ ∃ k : nat, p = index + Z.of_nat (S k) ∧ (cell :: rest) !! S k = Some Empty)
      as Hrest.
    { rewrite IH. split; intros (k & -> & Hk); exists k; split; (lia || done). }
    case_bool_decide as Hc.
    + rewrite elem_of_cons, Hrest. subst cell. split.
      * intros [-> | (k & -> & Hk)]; [exists 0%nat | exists (S k)]; split; (lia || done).
      * intros ([|k] & -> & Hk); [left; lia | right; by exists k].
    + rewrite Hrest. split.
      * intros (k & -> & Hk). by exists (S k).
      * intros ([|k] & -> & Hk); [simpl in Hk; congruence | by exists k].
Qed.

Lemma empties_from_lower_bound (cells : list CellValue) (index p : Z) :
  p ∈ empties_from cells index → index ≤ p.
Proof. rewrite elem_of_empties_from. intros (k & -> & _). lia. Qed.

Lemma empties_from_sorted (cells : list CellValue) (index : Z) :
  StronglySorted Z.lt (empties_from cells index).
Proof.
  revert index. induction cells as [|cell rest IH]; intros index; simpl.
  - constructor.
  - case_bool_decide; [|done]. constructor; [done|].
    apply Forall_forall. intros p Hp%empties_from_lower_bound. lia.
Qed.

Lemma empties_from_length (cells : list CellValue) (index : Z) :
  (length (empties_from cells index) + occupied cells = length cells)%nat.
Proof.
  revert index. unfold occupied.
  induction cells as [|cell rest IH]; intros index; simpl; [done|].
  specialize (IH (index + 1)).
  case_bool_decide as Hc.
  - rewrite filter_cons_False by (intros ?; done). simpl. lia.
  - rewrite filter_cons_True by done. simpl. lia.
Qed.

Lemma isFull_no_Empty (cells : list CellValue) :
  Board.isFull cells = true ↔ Empty ∉ cells.
Proof.
  unfold Board.isFull. rewrite forallb_forall. split.
  - intros H Hin. apply list_elem_of_In, H in Hin. by case_bool_decide.
  - intros H c Hc. apply bool_decide_eq_true. intros ->. by apply H, list_elem_of_In.
Qed.

Lemma elem_of_getAvailableMoves (cells : list CellValue) (p : Z) :
  p ∈ Board.getAvailableMoves cells ↔ at_index cells p = Some Empty.
Proof.
  rewrite getAvailableMoves_empties, elem_of_empties_from, at_index_Some. split.
  - intros (k & -> & Hk). split; [lia|]. by rewrite Z.add_0_l, Nat2Z.id.
  - intros [Hp Hl]. exists (Z.to_nat p). split; [lia | done].
Qed.

(** C6.  [getAvailableMoves] returns exactly the positions of the [Empty]
    cells ([p] is in the result if and only if cell [p] is [Empty]), in
    strictly ascending order; the result is empty for a full board; its
    length plus the number of occupied cells is the number of cells, that
    is 9 on a board of nine cells. *)
Theorem getAvailableMoves_ascending_empties (cells : list CellValue) :
  (∀ p, p ∈ Board.getAvailableMoves cells ↔ at_index cells p = Some Empty)
  ∧ StronglySorted Z.lt (Board.getAvailableMoves cells)
  ∧ (Board.isFull cells = true → Board.getAvailableMoves cells = [])
  ∧ (length (Board.getAvailableMoves cells) + occupied cells = length cells)%nat
  ∧ (length cells = 9%nat
     → (length (Board.getAvailableMoves cells) + occupied cells = 9)%nat).
Proof.
  split_and!.
  - apply elem_of_getAvailableMoves.
  - rewrite getAvailableMoves_empties. apply empties_from_sorted.
  - intros Hfull%isFull_no_Empty.
    destruct (Board.getAvailableMoves cells) as [|p l] eqn:Hm; [done|].
    assert (p ∈ Board.getAvailableMoves cells) as Hp by (rewrite Hm; left).
    apply elem_of_getAvailableMoves, at_index_Some in Hp as [_ Hp].
    destruct Hfull. by eapply list_elem_of_lookup_2.
  - rewrite getAvailableMoves_empties. apply empties_from_length.
  - intros <-. rewrite getAvailableMoves_empties. apply empties_from_length.
Qed.

Lemma getAvailableMoves_ascending_empties_witness :
  let cells := [X; O; Empty; Empty; Empty; Empty; O; Empty; X] in
  (7 ∈ Board.getAvailableMoves cells ∧ 6 ∉ Board.getAvailableMoves cells)
  ∧ (length (Board.getAvailableMoves cells) + occupied cells = 9)%nat
  ∧ Board.getAvailableMoves [X; O; O; O; X; X; X; O; X] = [].
Proof.
  cbv zeta.
  destruct (getAvailableMoves_ascending_empties
              [X; O; Empty; Empty; Empty; Empty; O; Empty; X])
    as (Hin & _ & _ & _ & Hnine).
  destruct (getAvailableMoves_ascending_empties [X; O; O; O; X; X; X; O; X])
    as (_ & _ & Hfull & _).
  split_and!.
  - apply Hin. reflexivity.
  - intros H6%Hin. discriminate H6.
  - apply Hnine. reflexivity.
  - apply Hfull. reflexivity.
Defined.

(** ** [insert] *)

Lemma occupied_insert (cells : list CellValue) (k : nat) (symbol : CellValue) :
  cells !! k = Some Empty → symbol ≠ Empty →
  occupied (<[k := symbol]> cells) = S (occupied cells).
Proof.
  unfold occupied. revert k.
  induction cells as [|cell rest IH]; intros k Hk Hs; [done|].
  destruct k as [|k]; simpl in *.
  - injection Hk as ->. rewrite filter_cons_True by done.
    by rewrite filter_cons_False by (intros ?; done).
  - specialize (IH k Hk Hs). destruct (decide (cell ≠ Empty)).
    + rewrite !filter_cons_True by done. simpl. by rewrite IH.
    + by rewrite !filter_cons_False by done.
Qed.

Lemma allowed_symbol (symbol : CellValue) (l : list CellValue) :
  l = [O; X] ∨ l = [X; O] → symbol ∈ l ↔ symbol = X ∨ symbol = O.
Proof.
  intros [-> | ->]; rewrite !elem_of_cons, elem_of_nil; tauto.
Qed.

Lemma insert_Empty_cell (symbol : CellValue) (position : Z) (cells : list CellValue) :
  0 ≤ position ≤ 8 → symbol ∈ [O; X] → at_index cells position = Some Empty →
  Board.insert symbol position cells
  = Some (Normal true, <[Z.to_nat position := symbol]> cells).
Proof.
  intros Hp Hs Hc. unfold Board.insert.
  rewrite !bool_decide_eq_false_2 by lia. simpl.
  rewrite bool_decide_eq_true_2 by done. simpl. by rewrite Hc.
Qed.

(** C4.  [insert] throws the position error for every position outside
    [0,8]; for a position inside, it throws the symbol error for every
    symbol other than [X] and [O]; for a position inside and a symbol [X]
    or [O], it returns [false] and leaves the array as it was when the
    target cell holds a symbol, and when the target cell is [Empty] it
    returns [true] and leaves an array that holds the symbol in the target
    cell, agrees with the previous one in every other cell, has the same
    length, and has exactly one more occupied cell. *)
Theorem insert_guards_and_effect (symbol : CellValue) (position : Z)
    (cells : list CellValue) :
  (position < 0 ∨ 8 < position
   → Board.insert symbol position cells = Some (Throw (InvalidPosition position), cells))
  ∧ (0 ≤ position ≤ 8 → symbol ∉ [X; O]
     → Board.insert symbol position cells = Some (Throw InvalidSymbol, cells))
  ∧ (0 ≤ position ≤ 8 → symbol ∈ [X; O]
     → ∀ c, at_index cells position = Some c → c ≠ Empty
     → Board.insert symbol position cells = Some (Normal false, cells))
  ∧ (0 ≤ position ≤ 8 → symbol ∈ [X; O]
     → at_index cells position = Some Empty
     → ∃ cells',
         Board.insert symbol position cells = Some (Normal true, cells')
         ∧ at_index cells' position = Some symbol
         ∧ (∀ q, q ≠ position → at_index cells' q = at_index cells q)
         ∧ length cells' = length cells
         ∧ occupied cells' = S (occupied cells)).
Proof.
  split_and!.
  - intros Hp. unfold Board.insert.
    destruct Hp; [rewrite (bool_decide_eq_true_2 (position < 0)) by lia; done|].
    rewrite (bool_decide_eq_true_2 (position > 8)) by lia. by rewrite orb_true_r.
  - intros Hp Hs. unfold Board.insert.
    rewrite !bool_decide_eq_false_2 by lia. simpl.
    rewrite bool_decide_eq_false_2; [done|].
    rewrite allowed_symbol in Hs |- * by auto. done.
  - intros Hp Hs c Hc Hne. unfold Board.insert.
    rewrite !bool_decide_eq_false_2 by lia. simpl.
    rewrite bool_decide_eq_true_2 by (rewrite allowed_symbol in Hs |- * by auto; done).
    simpl. rewrite Hc. by destruct c.
  - intros Hp Hs Hc. exists (<[Z.to_nat position := symbol]> cells).
    split_and!.
    + apply insert_Empty_cell; [done | | done].
      rewrite allowed_symbol in Hs |- * by auto. done.
    + by eapply at_index_insert_eq.
    + intros q Hq. apply at_index_insert_ne; lia.
    + apply length_insert.
    + apply at_index_Some in Hc as [_ Hc].
      apply occupied_insert; [done|]. intros ->.
      apply allowed_symbol in Hs as [? | ?]; [done | done | auto].
Qed.

Lemma insert_guards_and_effect_witness :
  let cells := [X; O; Empty; Empty; Empty; Empty; O; Empty; X] in
  Board.insert X 9 cells = Some (Throw (InvalidPosition 9), cells)
  ∧ Board.insert O (-1) cells = Some (Throw (InvalidPosition (-1)), cells)
  ∧ Board.insert Empty 4 cells = Some (Throw InvalidSymbol, cells)
  ∧ Board.insert O 0 cells = Some (Normal false, cells)
  ∧ ∃ cells', Board.insert O 2 cells = Some (Normal true, cells')
              ∧ at_index cells' 2 = Some O
              ∧ occupied cells' = S (occupied cells).
Proof.
  cbv zeta.
  set (cells := [X; O; Empty; Empty; Empty; Empty; O; Empty; X]).
  assert (O ∈ [X; O]) as HO by (right; left).
  split_and!.
  - destruct (insert_guards_and_effect X 9 cells) as (H & _). apply H. lia.
  - destruct (insert_guards_and_effect O (-1) cells) as (H & _). apply H. lia.
  - destruct (insert_guards_and_effect Empty 4 cells) as (_ & H & _).
    apply H; [lia|]. intros Hin. by apply allowed_symbol in Hin as [|]; auto.
  - destruct (insert_guards_and_effect O 0 cells) as (_ & _ & H & _).
    by apply (H ltac:(lia) HO X).
  - destruct (insert_guards_and_effect O 2 cells) as (_ & _ & _ & H).
    destruct (H ltac:(lia) HO eq_refl) as (cells' & Hins & Hat & _ & _ & Hocc).
    exists cells'. split_and!; [exact Hins | exact Hat | exact Hocc].
Defined.

(** ** [getFinishState] *)

Lemma calculateGameState_finished (cells : list CellValue) (p1 p2 p3 : Z) :
  is_Some (at_index cells p1) →
  finished (Board.calculateGameState cells p1 p2 p3) = true
  ↔ line_matches cells (p1, p2, p3).
Proof.
  intros [c Hc]. unfold Board.calculateGameState, line_matches. rewrite Hc.
  split.
  - intros Hf. exists c.
    destruct (bool_decide (Some c ≠ Some Empty)) eqn:H1; [|done].
    destruct (bool_decide (at_index cells p2 ≠ Some Empty)) eqn:H2; [|done].
    destruct (bool_decide (at_index cells p3 ≠ Some Empty)) eqn:H3; [|done].
    destruct (bool_decide (Some c = at_index cells p2)) eqn:H4; [|done].
    destruct (bool_decide (Some c = at_index cells p3)) eqn:H5; [|done].
    apply bool_decide_eq_true in H1, H4, H5. split_and!; congruence.
  - intros (c' & Hne & [= <-] & H2 & H3). rewrite H2, H3.
    rewrite !bool_decide_eq_true_2 by congruence. done.
Qed.

Lemma calculateGameState_matches (cells : list CellValue) (p1 p2 p3 : Z) :
  line_matches cells (p1, p2, p3) →
  Board.calculateGameState cells p1 p2 p3
  = {| finished := true;
       winner := Symbol <$> at_index cells p1;
       winnerPositions := Some (p1, p2, p3) |}.
Proof.
  intros (c & Hne & H1 & H2 & H3). unfold Board.calculateGameState.
  rewrite H1, H2, H3. by rewrite !bool_decide_eq_true_2 by congruence.
Qed.

Lemma WINNER_POSITIONS_in_range :
  Forall (λ '(p1, p2, p3), 0 ≤ p1 < 9 ∧ 0 ≤ p2 < 9 ∧ 0 ≤ p3 < 9) WINNER_POSITIONS.
Proof. unfold WINNER_POSITIONS. repeat (constructor; [simpl; lia|]). constructor. Qed.

Lemma find_first {A} (f : A → bool) (pre post : list A) (x : A) :
  Forall (λ y, f y = false) pre → f x = true →
  List.find f (pre ++ x :: post) = Some x.
Proof.
  intros Hpre Hx. induction Hpre as [|y pre Hy _ IH]; simpl.
  - by rewrite Hx.
  - by rewrite Hy.
Qed.

Lemma find_none {A} (f : A → bool) (l : list A) :
  Forall (λ y, f y = false) l → List.find f l = None.
Proof. intros Hl. induction Hl as [|y l Hy _ IH]; simpl; [done|]. by rewrite Hy. Qed.

Lemma lines_not_finished (cells : list CellValue) (lines : list (Z * Z * Z)) :
  length cells = 9%nat → lines ⊆ WINNER_POSITIONS →
  Forall (λ l, ¬ line_matches cells l) lines →
  Forall (λ state, finished state = false)
    (map (λ '(p1, p2, p3), Board.calculateGameState cells p1 p2 p3) lines).
Proof.
  intros Hlen Hsub Hno. apply Forall_map, Forall_forall.
  intros [[p1 p2] p3] Hin.
  pose proof (proj1 (Forall_forall _ _) WINNER_POSITIONS_in_range _ (Hsub _ Hin)) as Hr.
  simpl in Hr.
  pose proof (proj1 (Forall_forall _ _) Hno _ Hin) as Hn.
  destruct (finished (Board.calculateGameState cells p1 p2 p3)) eqn:Hf; [|done].
  destruct Hn. apply calculateGameState_finished; [|done].
  apply at_index_is_Some. lia.
Qed.

(** C5.  On a board of nine cells that is neither empty nor full,
    [getFinishState] goes through the eight lines in the order rows,
    columns, diagonals, and the first line of that order whose three cells
    hold the same symbol gives the reported winner and positions, whatever
    lines match after it; when no line matches the state is not finished. *)
Theorem getFinishState_first_matching_line (cells : list CellValue) :
  length cells = 9%nat → Board.isEmpty cells = false → Board.isFull cells = false →
  WINNER_POSITIONS
  = [ (0, 1, 2); (3, 4, 5); (6, 7, 8);
      (0, 3, 6); (1, 4, 7); (2, 5, 8);
      (0, 4, 8); (2, 4, 6) ]
  ∧ (∀ pre p1 p2 p3 post,
       WINNER_POSITIONS = pre ++ (p1, p2, p3) :: post →
       Forall (λ l, ¬ line_matches cells l) pre →
       line_matches cells (p1, p2, p3) →
       Board.getFinishState cells
       = {| finished := true;
            winner := Symbol <$> at_index cells p1;
            winnerPositions := Some (p1, p2, p3) |})
  ∧ (Forall (λ l, ¬ line_matches cells l) WINNER_POSITIONS →
     Board.getFinishState cells
     = {| finished := false; winner := None; winnerPositions := None |}).
Proof.
  intros Hlen Hne Hnf. split_and!; [done| |].
  - intros pre p1 p2 p3 post Hwp Hpre Hm.
    unfold Board.getFinishState. rewrite Hne, Hnf, Hwp.
    rewrite map_app. simpl.
    rewrite (find_first _ _ _ (Board.calculateGameState cells p1 p2 p3)).
    + by apply calculateGameState_matches.
    + apply lines_not_finished; [done| |done].
      rewrite Hwp. intros l Hl. apply elem_of_app. by left.
    + rewrite calculateGameState_matches by done. done.
  - intros Hno. unfold Board.getFinishState. rewrite Hne, Hnf.
    rewrite find_none; [done|]. by apply lines_not_finished.
Qed.

Lemma getFinishState_first_matching_line_witness :
  let cells := [Empty; O; X; X; O; X; Empty; O; X] in
  length cells = 9%nat ∧ Board.isEmpty cells = false ∧ Board.isFull cells = false
  ∧ line_matches cells (1, 4, 7) ∧ line_matches cells (2, 5, 8)
  ∧ Board.getFinishState cells
    = {| finished := true; winner := Some (Symbol O); winnerPositions := Some (1, 4, 7) |}.
Proof.
  assert (line_matches [Empty; O; X; X; O; X; Empty; O; X] (1, 4, 7)) as H147
    by (exists O; done).
  assert (line_matches [Empty; O; X; X; O; X; Empty; O; X] (2, 5, 8)) as H258
    by (exists X; done).
  cbv zeta. split_and!; [done | done | done | done | done |].
  destruct (getFinishState_first_matching_line
              [Empty; O; X; X; O; X; Empty; O; X] eq_refl eq_refl eq_refl)
    as (_ & Hfirst & _).
  apply (Hfirst [(0, 1, 2); (3, 4, 5); (6, 7, 8); (0, 3, 6)] 1 4 7
           [(2, 5, 8); (0, 4, 8); (2, 4, 6)]).
  - reflexivity.
  - repeat (apply List.Forall_cons;
            [intros (c & Hc & H1 & H2 & H3); vm_compute in H1, H2, H3; congruence|]).
    apply List.Forall_nil.
  - exact H147.
Defined.

(** C1 (the code departs from it).  A full board on which X holds the
    diagonal 0, 4, 8 is reported as a draw, not as won by X:
    [getFinishState] tests [isFull] before it looks at any line. *)
Theorem getFinishState_full_board_with_line_is_DRAW :
  let cells := [X; O; O; O; X; X; X; O; X] in
  Board.isFull cells = true
  ∧ line_matches cells (0, 4, 8)
  ∧ Board.getFinishState cells
    = {| winner := Some DRAW; finished := true; winnerPositions := None |}.
Proof. split_and!; [done | by exists X | done]. Qed.

Lemma getFinishState_full (cells : list CellValue) :
  Board.isEmpty cells = false → Board.isFull cells = true →
  Board.getFinishState cells
  = {| winner := Some DRAW; finished := true; winnerPositions := None |}.
Proof. intros He Hf. unfold Board.getFinishState. by rewrite He, Hf. Qed.

(** ** Numerals and the comma-separated strings of the tally *)

Lemma app_string_cons (c : ascii) (s t : string) :
  String c s +:+ t = String c (s +:+ t).
Proof. reflexivity. Qed.

Lemma app_string_assoc (s t u : string) : (s +:+ t) +:+ u = s +:+ (t +:+ u).
Proof.
  induction s as [|c s IH]; [done|]. by rewrite !app_string_cons, IH.
Qed.

Lemma app_string_nil_r (s : string) : s +:+ "" = s.
Proof.
  induction s as [|c s IH]; [done|]. by rewrite app_string_cons, IH.
Qed.

Lemma split_comma_first_uint (d : Decimal.uint) (t : string) :
  split_comma_first (NilEmpty.string_of_uint d +:+ t)
  = NilEmpty.string_of_uint d +:+ split_comma_first t.
Proof.
  induction d; simpl; [done | rewrite app_string_cons; simpl; by rewrite IHd ..].
Qed.

Lemma split_comma_first_numeral (n : Z) (t : string) :
  split_comma_first (number_to_string n +:+ t)
  = number_to_string n +:+ split_comma_first t.
Proof.
  unfold number_to_string.
  assert (∀ d, split_comma_first (NilZero.string_of_uint d +:+ t)
               = NilZero.string_of_uint d +:+ split_comma_first t) as Huint.
  { intros d. destruct d; [reflexivity|..];
      match goal with
      | |- context [NilZero.string_of_uint ?x] => exact (split_comma_first_uint x t)
      end. }
  destruct (Z.to_int n) as [d|d].
  - apply Huint.
  - change (String "-" (split_comma_first (NilZero.string_of_uint d +:+ t))
            = String "-" (NilZero.string_of_uint d +:+ split_comma_first t)).
    by rewrite Huint.
Qed.

Lemma to_int_not_nil (n : Z) :
  Z.to_int n ≠ Decimal.Pos Decimal.Nil ∧ Z.to_int n ≠ Decimal.Neg Decimal.Nil.
Proof.
  destruct n as [|p|p]; simpl; split; try done.
  - intros [= H]. by apply (DecimalPos.Unsigned.to_uint_nonnil p).
  - intros [= H]. by apply (DecimalPos.Unsigned.to_uint_nonnil p).
Qed.

Lemma unary_plus_numeral (n : Z) : unary_plus (number_to_string n) = Some n.
Proof.
  unfold unary_plus, number_to_string.
  destruct (to_int_not_nil n) as [H1 H2].
  rewrite NilZero.isi by done. simpl. by rewrite DecimalZ.of_to.
Qed.

Lemma comma_separated_snoc (first : Z) (rest : list Z) (index : Z) :
  comma_separated first (rest ++ [index])
  = comma_separated first rest +:+ "," +:+ number_to_string index.
Proof. unfold comma_separated. by rewrite foldl_snoc. Qed.

Lemma comma_separated_head (first : Z) (rest : list Z) :
  ∃ t, comma_separated first rest = number_to_string first +:+ t
       ∧ split_comma_first t = "".
Proof.
  induction rest as [|index rest IH] using rev_ind.
  - exists "". split; [|done]. unfold comma_separated. simpl.
    by rewrite app_string_nil_r.
  - destruct IH as (t & Ht & Hsplit). rewrite comma_separated_snoc, Ht.
    exists (t +:+ "," +:+ number_to_string index). split.
    + by rewrite app_string_assoc.
    + clear Ht. induction t as [|c t IHt]; [done|].
      rewrite app_string_cons. simpl in *.
      destruct (Ascii.eqb c ","); [done | discriminate].
Qed.

Lemma split_comma_first_comma_separated (first : Z) (rest : list Z) :
  split_comma_first (comma_separated first rest) = number_to_string first.
Proof.
  destruct (comma_separated_head first rest) as (t & -> & Ht).
  by rewrite split_comma_first_numeral, Ht, app_string_nil_r.
Qed.

Lemma to_string_bucket (index : Z) (rest : list Z) (v : NumberOrString) :
  bucket (index :: rest) = Some v → to_string v = comma_separated index rest.
Proof. destruct rest; simpl; intros [= <-]; done. Qed.

Lemma returnValue_of_bucket (index : Z) (rest : list Z) :
  returnValue_of (bucket (index :: rest)) = Some (Num index).
Proof.
  destruct rest as [|j rest]; [done|].
  change (bucket (index :: j :: rest)) with (Some (IsString (comma_separated index (j :: rest)))).
  simpl. by rewrite split_comma_first_comma_separated, unary_plus_numeral.
Qed.

(** ** The tally *)

Lemma tally_all_snoc (pairs : list (Z * Z)) (v index : Z) (m : gmap Z NumberOrString) :
  tally_all (pairs ++ [(v, index)]) m = tally v index (tally_all pairs m).
Proof. unfold tally_all. by rewrite foldl_snoc. Qed.

Lemma bucket_snoc (indices : list Z) (index : Z) :
  bucket (indices ++ [index])
  = Some (match bucket indices with
          | Some v => IsString (to_string v +:+ "," +:+ number_to_string index)
          | None => IsNumber index
          end).
Proof.
  destruct indices as [|first rest]; [done|].
  destruct (bucket (first :: rest)) as [v|] eqn:Hb.
  - apply to_string_bucket in Hb as ->.
    rewrite <- comma_separated_snoc.
    simpl. destruct rest; simpl; done.
  - destruct rest; done.
Qed.

Lemma tied_snoc (best : Z) (pairs : list (Z * Z)) (v index : Z) :
  tied best (pairs ++ [(v, index)])
  = tied best pairs ++ (if decide (v = best) then [index] else []).
Proof.
  unfold tied. rewrite filter_app, fmap_app. f_equal.
  destruct (decide (v = best)).
  - by rewrite filter_cons_True.
  - by rewrite filter_cons_False.
Qed.

Lemma tally_all_lookup (pairs : list (Z * Z)) (v : Z) :
  tally_all pairs ∅ !! v = bucket (tied v pairs).
Proof.
  induction pairs as [|[v' index] pairs IH] using rev_ind; [done|].
  rewrite tally_all_snoc, tied_snoc. unfold tally.
  destruct (decide (v' = v)) as [->|Hne].
  - rewrite lookup_insert_eq, IH. by rewrite bucket_snoc.
  - rewrite lookup_insert_ne by done. by rewrite app_nil_r.
Qed.

(** ** Worlds and computations *)

Lemma bind_Normal {A B} (m : M A) (k : A → M B) (w w' : World) (a : A) :
  m w = Some (Normal a, w') → bind m k w = k a w'.
Proof. intros H. unfold bind. by rewrite H. Qed.

Lemma grow_nil (w : World) : grow [] w = w.
Proof. destruct w. unfold grow, set_arrays. simpl. by rewrite app_nil_r. Qed.

Lemma lookup_grow (extra : list (list CellValue)) (w : World) (l : loc)
    (cells : list CellValue) :
  arrays w !! l = Some cells → arrays (grow extra w) !! l = Some cells.
Proof. intros H. simpl. by apply lookup_app_l_Some. Qed.

(** ** Children *)

Lemma child_length (cells : list CellValue) (cellValue : CellValue) (index : Z) :
  length (child cells cellValue index) = length cells.
Proof. apply length_insert. Qed.

Lemma child_moves_length (cells : list CellValue) (cellValue : CellValue) (index : Z) :
  at_index cells index = Some Empty → cellValue ≠ Empty →
  S (length (Board.getAvailableMoves (child cells cellValue index)))
  = length (Board.getAvailableMoves cells).
Proof.
  intros [_ Hc]%at_index_Some Hne.
  pose proof (empties_from_length cells 0) as H1.
  pose proof (empties_from_length (child cells cellValue index) 0) as H2.
  rewrite child_length in H2. unfold child in H2 at 2.
  rewrite occupied_insert in H2 by done.
  rewrite !getAvailableMoves_empties. lia.
Qed.

Lemma cellValue_of_allowed (maximizing : bool) :
  cellValue_of maximizing ∈ [O; X] ∧ cellValue_of maximizing ≠ Empty.
Proof.
  destruct maximizing; simpl; (split; [|done]); rewrite allowed_symbol by auto; auto.
Qed.

Lemma available_in_range (cells : list CellValue) (index : Z) :
  length cells = 9%nat → at_index cells index = Some Empty → 0 ≤ index ≤ 8.
Proof.
  intros Hlen [H0 Hl%lookup_lt_Some]%at_index_Some. lia.
Qed.

(** The first three statements of the loop body: the copy, the new board
    and the move played on it. *)
Lemma make_child {A} (k : Board → M A) (board : Board) (cells : list CellValue)
    (cellValue : CellValue) (index : Z) (w : World) :
  arrays w !! _state board = Some cells → 0 ≤ index ≤ 8 → cellValue ∈ [O; X] →
  at_index cells index = Some Empty →
  (arr <- spread (getState board);;
   nextBoard <- new_Board arr;;
   call_insert nextBoard cellValue index;;
   k nextBoard) w
  = k (mkBoard (length (arrays w))) (grow [child cells cellValue index] w).
Proof.
  intros Hb Hr Hs Hc.
  unfold spread, read_array, new_Board, getState, call_insert, bind, ret. rewrite Hb.
  simpl. rewrite lookup_app_r by done. rewrite Nat.sub_diag. simpl.
  rewrite insert_Empty_cell by done.
  f_equal. unfold grow, set_arrays, child. simpl. f_equal.
  rewrite insert_app_r_alt by done. by rewrite Nat.sub_diag.
Qed.

(** ** The loop of [minimax] and the calls below the root *)

Section Search.

Variable maxDepth : Z.

Lemma forEach_move_spec (fuel : nat) (self : Board → bool → Z → M Value) :
  evaluates maxDepth fuel self →
  ∀ (moves : list Z) (cells : list CellValue) (maximizing : bool) (depth : Z)
    (board : Board) (best : Z) (w : World),
    0 ≤ depth → length cells = 9%nat →
    (length (Board.getAvailableMoves cells) ≤ fuel)%nat →
    Forall (λ index, at_index cells index = Some Empty) moves →
    arrays w !! _state board = Some cells →
    ∃ scores extra,
      mapM (λ index, evaluate maxDepth fuel (child cells (cellValue_of maximizing) index)
                       (negb maximizing) (depth + 1)) moves = Some scores
      ∧ Player.forEach_move self (op_of maximizing) (cellValue_of maximizing)
          maximizing board depth moves best w
        = Some (Normal (foldl (op_of maximizing) best scores),
                {| arrays := arrays w ++ extra;
                   nodesMap := if bool_decide (depth = 0)
                               then tally_all (zip scores moves) (nodesMap w)
                               else nodesMap w;
                   calls := calls w |}).
Proof.
  intros Hself moves cells maximizing depth board.
  induction moves as [|index rest IH]; intros best w Hd Hlen Hfuel Hmoves Hb.
  - exists [], []. split; [done|]. simpl. unfold ret. do 2 f_equal.
    destruct w. simpl. rewrite app_nil_r. by case_bool_decide.
  - apply Forall_cons in Hmoves as [Hindex Hrest].
    destruct (cellValue_of_allowed maximizing) as [Hallowed Hsymbol].
    pose proof (available_in_range _ _ Hlen Hindex) as Hrange.
    set (cells' := child cells (cellValue_of maximizing) index).
    destruct (Hself (mkBoard (length (arrays w))) cells' (negb maximizing) (depth + 1)
                (grow [cells'] w)) as (v & extra1 & Hv & Hrun).
    { lia. }
    { unfold cells'. by rewrite child_length. }
    { pose proof (child_moves_length cells (cellValue_of maximizing) index Hindex Hsymbol).
      fold cells' in H. lia. }
    { simpl. rewrite lookup_app_r by done. by rewrite Nat.sub_diag. }
    set (w2 := grow extra1 (grow [cells'] w)) in *.
    set (w3 := if bool_decide (depth = 0)
               then set_nodesMap (tally v index (nodesMap w2)) w2 else w2).
    destruct (IH (op_of maximizing best v) w3) as (scores & extra2 & Hscores & Hloop);
      [done | done | done | done | |].
    { unfold w3. case_bool_decide; simpl; by do 2 apply lookup_app_l_Some. }
    exists (v :: scores), ([cells'] ++ extra1 ++ extra2). split.
    { simpl. fold cells'. rewrite Hv. simpl. by rewrite Hscores. }
    simpl Player.forEach_move.
    rewrite (make_child _ board cells) by done. fold cells'.
    rewrite (bind_Normal _ _ _ _ _ Hrun).
    assert ((if bool_decide (depth = 0) then nodesMap_tally v index else ret tt) w2
            = Some (Normal tt, w3)) as Htally.
    { unfold w3. by case_bool_decide. }
    rewrite (bind_Normal _ _ _ _ _ Htally). rewrite Hloop.
    do 2 f_equal. unfold w3, w2. simpl.
    case_bool_decide; simpl; by rewrite <- !app_assoc.
Qed.

Lemma moves_available (cells : list CellValue) :
  Forall (λ index, at_index cells index = Some Empty) (Board.getAvailableMoves cells).
Proof. apply Forall_forall. intros index. by rewrite elem_of_getAvailableMoves. Qed.

Lemma minimax_spec (fuel : nat) (self : Board → bool → Z → M Value)
    (cells : list CellValue) (maximizing : bool) (depth : Z) (board : Board) (w : World) :
  evaluates maxDepth fuel self →
  0 ≤ depth → length cells = 9%nat →
  (length (Board.getAvailableMoves cells) ≤ fuel)%nat →
  arrays w !! _state board = Some cells →
  ∃ scores extra,
    mapM (λ index, evaluate maxDepth fuel (child cells (cellValue_of maximizing) index)
                     (negb maximizing) (depth + 1))
         (Board.getAvailableMoves cells) = Some scores
    ∧ Player.minimax self maximizing board depth w
      = (if bool_decide (depth = 0)
         then getBestMoveAndExecuteCallback
                (foldl (op_of maximizing) (best_of maximizing) scores)
         else ret (Num (foldl (op_of maximizing) (best_of maximizing) scores)))
          {| arrays := arrays w ++ extra;
             nodesMap := if bool_decide (depth = 0)
                         then tally_all (zip scores (Board.getAvailableMoves cells))
                                (nodesMap w)
                         else nodesMap w;
             calls := calls w |}.
Proof.
  intros Hself Hd Hlen Hfuel Hb.
  destruct (forEach_move_spec fuel self Hself (Board.getAvailableMoves cells) cells
              maximizing depth board (best_of maximizing) w Hd Hlen Hfuel
              (moves_available cells) Hb) as (scores & extra & Hscores & Hloop).
  exists scores, extra. split; [done|].
  assert (call_getAvailableMoves board w
          = Some (Normal (Board.getAvailableMoves cells), w)) as Hmoves.
  { unfold call_getAvailableMoves, read_array, bind, ret. by rewrite Hb. }
  unfold Player.minimax.
  destruct maximizing; cbv [negb];
    rewrite (bind_Normal _ _ _ _ _ Hmoves);
    rewrite (bind_Normal _ _ _ _ _ Hloop); done.
Qed.

Lemma getBestMove_evaluates (fuel : nat) :
  evaluates maxDepth fuel (Player.getBestMove maxDepth fuel).
Proof.
  induction fuel as [|fuel IH]; intros board cells maximizing depth w Hd Hlen Hfuel Hb.
  { lia. }
  assert (call_getFinishState board w = Some (Normal (Board.getFinishState cells), w))
    as Hstate.
  { unfold call_getFinishState, read_array, bind, ret. by rewrite Hb. }
  simpl. rewrite (bool_decide_eq_false_2 (depth = 0)) by lia.
  unfold bind at 1. unfold ret at 1.
  rewrite (bind_Normal _ _ _ _ _ Hstate).
  destruct (finished (Board.getFinishState cells) || bool_decide (depth = maxDepth)).
  - repeat case_bool_decide; eexists _, []; rewrite grow_nil; done.
  - destruct (minimax_spec fuel _ cells maximizing depth board w IH)
      as (scores & extra & Hscores & Hrun); [lia | done | lia | done |].
    rewrite Hscores, Hrun. rewrite !(bool_decide_eq_false_2 (depth = 0)) by lia.
    eexists _, extra. done.
Qed.

End Search.

(** ** Folding [Math.max] and [Math.min] over the scores *)

Lemma foldl_op_choice (op : Z → Z → Z) (l : list Z) (a : Z) :
  (∀ x y, op x y = x ∨ op x y = y) →
  foldl op a l = a ∨ foldl op a l ∈ l.
Proof.
  intros Hop. revert a. induction l as [|x l IH]; intros a; simpl; [by left|].
  destruct (IH (op a x)) as [Heq | Hin].
  - rewrite Heq. destruct (Hop a x) as [-> | ->]; [by left | right; by left].
  - right. by right.
Qed.

Lemma op_of_choice (maximizing : bool) (x y : Z) :
  op_of maximizing x y = x ∨ op_of maximizing x y = y.
Proof. destruct maximizing; unfold op_of; simpl; lia. Qed.

Lemma foldl_op_bound (maximizing : bool) (l : list Z) (a : Z) :
  (if maximizing then a ≤ foldl (op_of maximizing) a l
   else foldl (op_of maximizing) a l ≤ a)
  ∧ Forall (λ v, if maximizing then v ≤ foldl (op_of maximizing) a l
                 else foldl (op_of maximizing) a l ≤ v) l.
Proof.
  revert a. induction l as [|x l IH]; intros a; simpl.
  - split; [by destruct maximizing | constructor].
  - destruct (IH (op_of maximizing a x)) as [H1 H2]. split.
    + destruct maximizing; unfold op_of in *; simpl in *; lia.
    + constructor; [|done]. destruct maximizing; unfold op_of in *; simpl in *; lia.
Qed.

Lemma best_in_scores (maximizing : bool) (scores : list Z) :
  scores ≠ [] → Forall (λ v, -100 < v < 100) scores →
  foldl (op_of maximizing) (best_of maximizing) scores ∈ scores.
Proof.
  intros Hne Hb. destruct scores as [|x l]; [done|]. simpl.
  apply Forall_cons in Hb as [Hx _].
  assert (op_of maximizing (best_of maximizing) x = x) as ->
    by (destruct maximizing; unfold op_of, best_of; simpl; lia).
  destruct (foldl_op_choice (op_of maximizing) l x (op_of_choice maximizing)) as [-> | H].
  - by left.
  - by right.
Qed.

(** ** The moves tied at the best score *)

Lemma elem_of_tied (best index : Z) (pairs : list (Z * Z)) :
  index ∈ tied best pairs ↔ (best, index) ∈ pairs.
Proof.
  unfold tied. rewrite list_elem_of_fmap. split.
  - intros ([v j] & -> & [Hv Hin]%list_elem_of_filter). simpl in *. by subst.
  - intros Hin. exists (best, index). split; [done|].
    by apply list_elem_of_filter.
Qed.

Lemma tied_head_least (scores moves : list Z) (best index : Z) (ties : list Z) :
  StronglySorted Z.lt moves →
  tied best (zip scores moves) = index :: ties →
  ∀ j, (best, j) ∈ zip scores moves → index ≤ j.
Proof.
  intros Hsorted. revert scores.
  induction Hsorted as [|m ms Hms IH Hm]; intros scores Htied j Hj.
  - destruct scores; by apply elem_of_nil in Hj.
  - destruct scores as [|s ss]; [by apply elem_of_nil in Hj|].
    simpl in *. unfold tied in Htied. rewrite filter_cons in Htied.
    apply elem_of_cons in Hj. simpl in Htied.
    destruct (decide (s = best)) as [->|Hne].
    + injection Htied as <- _.
      destruct Hj as [[= ->] | Hj]; [lia|].
      apply elem_of_zip_r in Hj.
      pose proof (proj1 (Forall_forall _ _) Hm _ Hj). lia.
    + destruct Hj as [[= <- _] | Hj]; [done|]. by eapply IH.
Qed.

Lemma zip_score_move (scores moves : list Z) (v : Z) :
  length scores = length moves → v ∈ scores → ∃ j, (v, j) ∈ zip scores moves.
Proof.
  intros Hlen [k Hk]%list_elem_of_lookup.
  destruct (lookup_lt_is_Some_2 moves k) as [j Hj].
  { rewrite <- Hlen. by eapply lookup_lt_Some. }
  exists j. by eapply (elem_of_lookup_zip_with_2 pair).
Qed.

(** ** Boards that are not finished have a move *)

Lemma not_finished_has_move (cells : list CellValue) :
  length cells = 9%nat → finished (Board.getFinishState cells) = false →
  Board.getAvailableMoves cells ≠ [].
Proof.
  intros Hlen Hfin.
  assert (Empty ∈ cells) as [k Hk]%list_elem_of_lookup.
  { unfold Board.getFinishState in Hfin.
    destruct (Board.isEmpty cells) eqn:He.
    - destruct cells as [|c cells]; [done|]. simpl in He.
      apply andb_true_iff in He as [->%bool_decide_eq_true _]. by left.
    - destruct (Board.isFull cells) eqn:Hf; [done|].
      destruct (decide (Empty ∈ cells)) as [|Hno]; [done|].
      apply isFull_no_Empty in Hno. congruence. }
  assert (Z.of_nat k ∈ Board.getAvailableMoves cells) as Hin.
  { apply elem_of_getAvailableMoves. by rewrite at_index_of_nat. }
  intros Hnil. rewrite Hnil in Hin. by apply elem_of_nil in Hin.
Qed.

(** ** The score does not depend on the fuel, and it is within bounds *)

Section Scores.

Variable maxDepth : Z.

Lemma evaluate_mono (n m : nat) (cells : list CellValue) (maximizing : bool)
    (depth v : Z) :
  (n ≤ m)%nat →
  evaluate maxDepth n cells maximizing depth = Some v →
  evaluate maxDepth m cells maximizing depth = Some v.
Proof.
  revert m cells maximizing depth v.
  induction n as [|n IH]; intros m cells maximizing depth v Hle Hv; [done|].
  destruct m as [|m]; [lia|]. simpl in *.
  destruct (finished (Board.getFinishState cells) || bool_decide (depth = maxDepth));
    [done|].
  destruct (mapM _ (Board.getAvailableMoves cells)) as [scores|] eqn:Hscores;
    [|done].
  simpl in Hv.
  erewrite (proj2 (mapM_Some _ _ scores)); [done|].
  apply mapM_Some in Hscores.
  eapply Forall2_impl; [done|]. intros index s Hs. simpl in *.
  eapply IH; [lia | done].
Qed.

Lemma evaluate_total (fuel : nat) (cells : list CellValue) (maximizing : bool)
    (depth : Z) :
  0 < depth → length cells = 9%nat →
  (length (Board.getAvailableMoves cells) < fuel)%nat →
  is_Some (evaluate maxDepth fuel cells maximizing depth).
Proof.
  intros Hd Hlen Hfuel.
  destruct (getBestMove_evaluates maxDepth fuel board0 cells maximizing depth
              (world_of cells) Hd Hlen Hfuel eq_refl) as (v & _ & Hv & _).
  by exists v.
Qed.

Lemma evaluate_fuel (n m : nat) (cells : list CellValue) (maximizing : bool)
    (depth v : Z) :
  0 < depth → length cells = 9%nat →
  (length (Board.getAvailableMoves cells) < m)%nat →
  evaluate maxDepth n cells maximizing depth = Some v →
  evaluate maxDepth m cells maximizing depth = Some v.
Proof.
  intros Hd Hlen Hm Hn.
  destruct (evaluate_total m cells maximizing depth Hd Hlen Hm) as [v' Hv'].
  rewrite Hv'. f_equal.
  apply (evaluate_mono n (n `max` m)) in Hn; [|lia].
  apply (evaluate_mono m (n `max` m)) in Hv'; [|lia]. congruence.
Qed.

Lemma evaluate_bounds (fuel : nat) (cells : list CellValue) (maximizing : bool)
    (depth v : Z) :
  length cells = 9%nat → 0 < depth →
  depth + Z.of_nat (length (Board.getAvailableMoves cells)) < 200 →
  evaluate maxDepth fuel cells maximizing depth = Some v → -100 < v < 100.
Proof.
  revert cells maximizing depth v.
  induction fuel as [|fuel IH]; intros cells maximizing depth v Hlen Hd Hsum Hv;
    [done|].
  simpl in Hv.
  destruct (finished (Board.getFinishState cells) || bool_decide (depth = maxDepth))
    eqn:Hleaf.
  { repeat case_bool_decide; injection Hv as <-; lia. }
  apply orb_false_iff in Hleaf as [Hfin _].
  destruct (mapM _ (Board.getAvailableMoves cells)) as [scores|] eqn:Hscores;
    [|done].
  injection Hv as <-. apply mapM_Some in Hscores.
  assert (Forall (λ s, -100 < s < 100) scores) as Hbounds.
  { eapply Forall2_Forall_r; [done|].
    apply Forall_forall. intros index Hin%elem_of_getAvailableMoves s Hs.
    simpl in Hs.
    destruct (cellValue_of_allowed maximizing) as [_ Hsymbol].
    pose proof (child_moves_length cells _ index Hin Hsymbol).
    eapply IH; [| | |exact Hs]; [by rewrite child_length | lia | lia]. }
  assert (scores ≠ []) as Hne.
  { intros ->. apply Forall2_nil_inv_r in Hscores.
    by apply (not_finished_has_move cells). }
  pose proof (best_in_scores maximizing scores Hne Hbounds) as Hin.
  by apply (proj1 (Forall_forall _ _) Hbounds).
Qed.

End Scores.

Lemma Forall2_impl_elem {A B} (P Q : A → B → Prop) (l : list A) (k : list B) :
  Forall2 P l k → (∀ x y, x ∈ l → P x y → Q x y) → Forall2 Q l k.
Proof.
  induction 1 as [|x y l k Hxy _ IH]; intros Himpl; constructor.
  - apply Himpl; [by left | done].
  - apply IH. intros x' y' Hin. apply Himpl. by right.
Qed.

(** ** Leaves *)

Lemma getFinishState_not_finished (cells : list CellValue) :
  finished (Board.getFinishState cells) = false →
  Board.getFinishState cells
  = {| finished := false; winner := None; winnerPositions := None |}.
Proof.
  unfold Board.getFinishState.
  destruct (Board.isEmpty cells); [done|].
  destruct (Board.isFull cells); [done|].
  destruct (List.find _ _) as [state|] eqn:Hfind; [|done].
  apply find_some in Hfind as [_ Hfin]. simpl. congruence.
Qed.

Section Root.

Variable maxDepth : Z.

Lemma getBestMove_leaf (fuel : nat) (board : Board) (cells : list CellValue)
    (maximizing : bool) (depth : Z) (w : World) :
  arrays w !! _state board = Some cells →
  finished (Board.getFinishState cells) || bool_decide (depth = maxDepth) = true →
  Player.getBestMove maxDepth (S fuel) board maximizing depth w
  = Some (Normal (Num (if bool_decide (winner (Board.getFinishState cells)
                                       = Some (Symbol X)) then 100 - depth
                       else if bool_decide (winner (Board.getFinishState cells)
                                            = Some (Symbol O)) then -100 + depth
                       else 0)),
          if bool_decide (depth = 0) then set_nodesMap ∅ w else w).
Proof.
  intros Hb Hleaf. simpl.
  set (w0 := if bool_decide (depth = 0) then set_nodesMap ∅ w else w).
  assert ((if bool_decide (depth = 0) then nodesMap_clear else ret tt) w
          = Some (Normal tt, w0)) as Hclear.
  { unfold w0. destruct (bool_decide (depth = 0)); reflexivity. }
  assert (call_getFinishState board w0 = Some (Normal (Board.getFinishState cells), w0))
    as Hstate.
  { unfold call_getFinishState, read_array, bind, ret.
    assert (arrays w0 = arrays w) as ->
        by (unfold w0; destruct (bool_decide (depth = 0)); reflexivity).
    by rewrite Hb. }
  rewrite (bind_Normal _ _ _ _ _ Hclear), (bind_Normal _ _ _ _ _ Hstate), Hleaf.
  destruct (bool_decide (winner (Board.getFinishState cells) = Some (Symbol X)));
    [done|].
  by destruct (bool_decide (winner (Board.getFinishState cells) = Some (Symbol O))).
Qed.

Lemma move_scores_fuel (fuel : nat) (cells : list CellValue) (maximizing : bool)
    (scores : list Z) :
  length cells = 9%nat →
  mapM (λ index, evaluate maxDepth fuel (child cells (cellValue_of maximizing) index)
                   (negb maximizing) 1)
       (Board.getAvailableMoves cells) = Some scores →
  move_scores maxDepth cells maximizing = Some scores.
Proof.
  intros Hlen Hscores. unfold move_scores.
  apply mapM_Some. apply mapM_Some in Hscores.
  eapply Forall2_impl_elem; [done|].
  intros index s Hin%elem_of_getAvailableMoves Hs. cbv beta in *.
  destruct (cellValue_of_allowed maximizing) as [_ Hsymbol].
  pose proof (child_moves_length cells _ index Hin Hsymbol) as Hmoves.
  pose proof (empties_from_length cells 0) as Hcount.
  rewrite <- getAvailableMoves_empties in Hcount.
  eapply evaluate_fuel; [lia | by rewrite child_length | lia | done].
Qed.

End Root.

Section RootCall.

Variable maxDepth : Z.

Lemma move_scores_bounds (cells : list CellValue) (maximizing : bool) (scores : list Z) :
  length cells = 9%nat →
  move_scores maxDepth cells maximizing = Some scores →
  length scores = length (Board.getAvailableMoves cells)
  ∧ Forall (λ v, -100 < v < 100) scores.
Proof.
  intros Hlen Hscores%mapM_Some. split.
  { symmetry. by eapply Forall2_length. }
  eapply Forall2_Forall_r; [done|].
  apply Forall_forall. intros index Hin%elem_of_getAvailableMoves s Hs.
  cbv beta in Hs.
  destruct (cellValue_of_allowed maximizing) as [_ Hsymbol].
  pose proof (child_moves_length cells _ index Hin Hsymbol) as Hmoves.
  pose proof (empties_from_length cells 0) as Hcount.
  rewrite <- getAvailableMoves_empties in Hcount.
  eapply evaluate_bounds; [| | |exact Hs]; [by rewrite child_length | lia | lia].
Qed.

Lemma getBestMove_root (fuel : nat) (board : Board) (cells : list CellValue)
    (maximizing : bool) (w : World) :
  length cells = 9%nat → finished (Board.getFinishState cells) = false →
  maxDepth ≠ 0 → (9 ≤ fuel)%nat → arrays w !! _state board = Some cells →
  ∃ scores extra index ties,
    move_scores maxDepth cells maximizing = Some scores
    ∧ tied (foldl (op_of maximizing) (best_of maximizing) scores)
           (zip scores (Board.getAvailableMoves cells)) = index :: ties
    ∧ Player.getBestMove maxDepth (S fuel) board maximizing 0 w
      = Some (Normal (Num index),
              {| arrays := arrays w ++ extra;
                 nodesMap := tally_all (zip scores (Board.getAvailableMoves cells)) ∅;
                 calls := calls w ++ [Num index] |}).
Proof.
  intros Hlen Hfin Hcap Hfuel Hb.
  pose proof (empties_from_length cells 0) as Hcount.
  rewrite <- getAvailableMoves_empties in Hcount.
  set (w0 := set_nodesMap ∅ w).
  assert (call_getFinishState board w0 = Some (Normal (Board.getFinishState cells), w0))
    as Hstate.
  { unfold call_getFinishState, read_array, bind, ret. simpl. by rewrite Hb. }
  destruct (minimax_spec maxDepth fuel _ cells maximizing 0 board w0
              (getBestMove_evaluates maxDepth fuel))
    as (scores & extra & Hscores & Hrun); [lia | done | lia | done |].
  change (0 + 1) with 1 in Hscores.
  apply move_scores_fuel in Hscores; [|done].
  destruct (move_scores_bounds cells maximizing scores Hlen Hscores)
    as [Hlength Hbounds].
  set (best := foldl (op_of maximizing) (best_of maximizing) scores) in *.
  assert (best ∈ scores) as Hbest.
  { apply best_in_scores; [|done]. intros ->.
    apply (not_finished_has_move cells Hlen Hfin).
    apply nil_length_inv. by rewrite <- Hlength. }
  destruct (zip_score_move scores (Board.getAvailableMoves cells) best Hlength Hbest)
    as [j Hj%elem_of_tied].
  destruct (tied best (zip scores (Board.getAvailableMoves cells)))
    as [|index ties] eqn:Htied; [by apply elem_of_nil in Hj|].
  exists scores, extra, index, ties. split_and!; [done | done |].
  simpl Player.getBestMove.
  rewrite (bind_Normal nodesMap_clear _ w w0 tt) by done.
  rewrite (bind_Normal _ _ _ _ _ Hstate).
  rewrite Hfin, (bool_decide_eq_false_2 (0 = maxDepth)) by done.
  change (false || false) with false. cbv iota. rewrite Hrun.
  rewrite !(bool_decide_eq_true_2 (0 = 0)) by done.
  unfold getBestMoveAndExecuteCallback. simpl nodesMap.
  rewrite tally_all_lookup. fold best. rewrite Htied, returnValue_of_bucket.
  reflexivity.
Qed.

End RootCall.

(** ** The frame of the search: arrays are allocated, never overwritten *)

Lemma allocates_only_ret {A} (a : A) : allocates_only (ret a).
Proof. intros w c w' [= <- <-]. exists []. by rewrite app_nil_r. Qed.

Lemma allocates_only_unmodelled {A} : allocates_only (@unmodelled A).
Proof. intros w c w' [=]. Qed.

Lemma allocates_only_bind {A B} (m : M A) (k : A → M B) :
  allocates_only m → (∀ a, allocates_only (k a)) → allocates_only (bind m k).
Proof.
  intros Hm Hk w c w' Hrun. unfold bind in Hrun.
  destruct (m w) as [[[a|e] w1]|] eqn:Hmw; [| |done].
  - destruct (Hm _ _ _ Hmw) as [extra1 H1].
    destruct (Hk a _ _ _ Hrun) as [extra2 H2].
    exists (extra1 ++ extra2). by rewrite H2, H1, app_assoc.
  - injection Hrun as <- <-. by eapply Hm.
Qed.

Lemma allocates_only_same_arrays {A} (m : M A) :
  (∀ w c w', m w = Some (c, w') → arrays w' = arrays w) → allocates_only m.
Proof. intros H w c w' Hrun. exists []. rewrite app_nil_r. by eapply H. Qed.

Lemma allocates_only_nodesMap_clear : allocates_only nodesMap_clear.
Proof. apply allocates_only_same_arrays. by intros w c w' [= <- <-]. Qed.

Lemma allocates_only_nodesMap_tally (v index : Z) :
  allocates_only (nodesMap_tally v index).
Proof. apply allocates_only_same_arrays. by intros w c w' [= <- <-]. Qed.

Lemma allocates_only_callback (v : Value) : allocates_only (callback v).
Proof. apply allocates_only_same_arrays. by intros w c w' [= <- <-]. Qed.

Lemma allocates_only_read_array (l : loc) : allocates_only (read_array l).
Proof.
  apply allocates_only_same_arrays. intros w c w'. unfold read_array.
  destruct (arrays w !! l); [|done]. by intros [= <- <-].
Qed.

Lemma allocates_only_getBestMoveAndExecuteCallback (best : Z) :
  allocates_only (getBestMoveAndExecuteCallback best).
Proof.
  intros w c w'. unfold getBestMoveAndExecuteCallback.
  destruct (returnValue_of (nodesMap w !! best)) as [v|]; [|done].
  apply allocates_only_bind; [apply allocates_only_callback|].
  intros _. apply allocates_only_ret.
Qed.

(** The copy and the move played on it: [insert] writes into the fresh
    array only. *)
Lemma allocates_only_child {A} (k : Board → M A) (board : Board)
    (cellValue : CellValue) (index : Z) :
  (∀ nextBoard, allocates_only (k nextBoard)) →
  allocates_only (arr <- spread (getState board);;
                  nextBoard <- new_Board arr;;
                  call_insert nextBoard cellValue index;;
                  k nextBoard).
Proof.
  intros Hk w c w'.
  unfold spread, read_array, new_Board, getState, call_insert, bind, ret.
  destruct (arrays w !! _state board) as [cells|]; [|done]. simpl.
  rewrite lookup_app_r by done. rewrite Nat.sub_diag. simpl.
  destruct (Board.insert cellValue index cells) as [[[b|e] cells']|]; [| |done].
  - intros Hrun. apply Hk in Hrun as [extra Hextra]. simpl in Hextra.
    rewrite insert_app_r_alt in Hextra by done.
    rewrite Nat.sub_diag in Hextra. simpl in Hextra.
    exists ([cells'] ++ extra). by rewrite Hextra, <- app_assoc.
  - intros [= <- <-]. simpl. rewrite insert_app_r_alt by done.
    rewrite Nat.sub_diag. by exists [cells'].
Qed.

Lemma allocates_only_forEach_move (self : Board → bool → Z → M Value)
    (op : Z → Z → Z) (cellValue : CellValue) (maximizing : bool) (board : Board)
    (depth : Z) (moves : list Z) (best : Z) :
  (∀ b m d, allocates_only (self b m d)) →
  allocates_only (Player.forEach_move self op cellValue maximizing board depth moves best).
Proof.
  intros Hself. revert best.
  induction moves as [|index rest IH]; intros best; simpl.
  - apply allocates_only_ret.
  - apply allocates_only_child. intros nextBoard.
    apply allocates_only_bind; [apply Hself|].
    intros [v|]; [|apply allocates_only_unmodelled].
    apply allocates_only_bind; [|intros _; apply IH].
    case_bool_decide; [apply allocates_only_nodesMap_tally | apply allocates_only_ret].
Qed.

Lemma allocates_only_minimax (self : Board → bool → Z → M Value)
    (maximizing : bool) (board : Board) (depth : Z) :
  (∀ b m d, allocates_only (self b m d)) →
  allocates_only (Player.minimax self maximizing board depth).
Proof.
  intros Hself. unfold Player.minimax.
  destruct maximizing; cbv [negb];
    (apply allocates_only_bind;
     [apply allocates_only_bind; [apply allocates_only_read_array|];
      intros cells; apply allocates_only_ret|]);
    intros moves;
    (apply allocates_only_bind; [by apply allocates_only_forEach_move|]);
    intros best; case_bool_decide;
    (apply allocates_only_getBestMoveAndExecuteCallback || apply allocates_only_ret).
Qed.

Lemma allocates_only_getBestMove (maxDepth : Z) (fuel : nat) (board : Board)
    (maximizing : bool) (depth : Z) :
  allocates_only (Player.getBestMove maxDepth fuel board maximizing depth).
Proof.
  revert board maximizing depth.
  induction fuel as [|fuel IH]; intros board maximizing depth; simpl.
  - apply allocates_only_unmodelled.
  - apply allocates_only_bind.
    { case_bool_decide; [apply allocates_only_nodesMap_clear | apply allocates_only_ret]. }
    intros _. apply allocates_only_bind.
    { apply allocates_only_bind; [apply allocates_only_read_array|].
      intros cells. apply allocates_only_ret. }
    intros state.
    destruct (finished state || bool_decide (depth = maxDepth)).
    + repeat case_bool_decide; apply allocates_only_ret.
    + by apply allocates_only_minimax.
Qed.

(** * The search: leaves, root call, tally and frame *)

(** The run at the end of [src/app.ts]: [p.getBestMove(board, true)] on
    [['X','O','','','','','O','','X']] gives 4, and [p.nodesMap] is then
    [{-96 => 3, 99 => 4, 97 => '2,5', 0 => 7}]. *)
Example sample_run :
  ∃ w', Player.getBestMove (-1) 10 board0 true 0
          (world_of [X; O; Empty; Empty; Empty; Empty; O; Empty; X])
        = Some (Normal (Num 4), w')
        ∧ nodesMap w'
          = list_to_map [(-96, IsNumber 3); (99, IsNumber 4);
                         (97, IsString "2,5"); (0, IsNumber 7)].
Proof.
  eexists. split.
  - vm_compute. reflexivity.
  - vm_compute. reflexivity.
Qed.

(** C2.  A call of [getBestMove] on a finished board at ply [depth] returns
    [100 - depth] when the reported winner is X, [-100 + depth] when it is
    O and [0] when it is a draw; on a board that is not finished it
    returns [0] when [depth] is the configured maximum depth.  The call
    changes nothing but the tally, which it clears when [depth] is 0. *)
Theorem getBestMove_leaf_scores (maxDepth : Z) (fuel : nat) (board : Board)
    (cells : list CellValue) (maximizing : bool) (depth : Z) (w : World) :
  (0 < fuel)%nat → arrays w !! _state board = Some cells →
  let state := Board.getFinishState cells in
  let w' := if bool_decide (depth = 0) then set_nodesMap ∅ w else w in
  (finished state = true → winner state = Some (Symbol X) →
   Player.getBestMove maxDepth fuel board maximizing depth w
   = Some (Normal (Num (100 - depth)), w'))
  ∧ (finished state = true → winner state = Some (Symbol O) →
     Player.getBestMove maxDepth fuel board maximizing depth w
     = Some (Normal (Num (-100 + depth)), w'))
  ∧ (finished state = true → winner state = Some DRAW →
     Player.getBestMove maxDepth fuel board maximizing depth w
     = Some (Normal (Num 0), w'))
  ∧ (finished state = false → depth = maxDepth →
     Player.getBestMove maxDepth fuel board maximizing depth w
     = Some (Normal (Num 0), w')).
Proof.
  intros Hfuel Hb state w'. destruct fuel as [|fuel]; [lia|].
  pose proof (getBestMove_leaf maxDepth fuel board cells maximizing depth w Hb) as Hleaf.
  fold state w' in Hleaf. split_and!.
  - intros Hfin Hw. rewrite Hleaf by (by rewrite Hfin).
    by rewrite bool_decide_eq_true_2.
  - intros Hfin Hw. rewrite Hleaf by (by rewrite Hfin).
    rewrite bool_decide_eq_false_2 by congruence.
    by rewrite bool_decide_eq_true_2.
  - intros Hfin Hw. rewrite Hleaf by (by rewrite Hfin).
    by rewrite !bool_decide_eq_false_2 by congruence.
  - intros Hfin Hd. rewrite Hleaf
      by (rewrite Hfin; by rewrite bool_decide_eq_true_2).
    unfold state in *. rewrite (getFinishState_not_finished cells Hfin). done.
Qed.

Lemma getBestMove_leaf_scores_witness :
  let cells := [O; X; X; O; X; Empty; O; Empty; Empty] in
  (0 < 1)%nat ∧ arrays (world_of cells) !! _state board0 = Some cells
  ∧ Player.getBestMove (-1) 1 board0 true 3 (world_of cells)
    = Some (Normal (Num (-100 + 3)), world_of cells).
Proof.
  cbv zeta. split_and!; [lia | done |].
  destruct (getBestMove_leaf_scores (-1) 1 board0
              [O; X; X; O; X; Empty; O; Empty; Empty] true 3
              (world_of [O; X; X; O; X; Empty; O; Empty; Empty]))
    as (_ & HO & _); [lia | done |].
  apply HO; reflexivity.
Defined.

(** C3 as stated fails for a [Player] whose depth cap is 0: on a board
    that is not finished, with the moves 7 and 8 tied at the best score,
    the root call returns the score 0 of the depth cap.  That is no move of
    the board (cell 0 is taken), the tally is left empty, so that no entry
    is kept under any score, and the callback is not called. *)
Lemma root_call_under_cap_0_returns_score :
  let cells := [X; X; O; O; X; O; Empty; Empty; Empty] in
  finished (Board.getFinishState cells) = false
  ∧ Board.getAvailableMoves cells = [6; 7; 8]
  ∧ Player.getBestMove 0 10 board0 true 0 (world_of cells)
    = Some (Normal (Num 0), world_of cells)
  ∧ nodesMap (world_of cells) = ∅ ∧ calls (world_of cells) = []
  ∧ ¬ (∃ index w' best entry,
         Player.getBestMove 0 10 board0 true 0 (world_of cells)
         = Some (Normal (Num index), w')
         ∧ nodesMap w' !! best = Some entry
         ∧ returnValue_of (Some entry) = Some (Num index))
  ∧ ¬ (∃ index w',
         Player.getBestMove 0 10 board0 true 0 (world_of cells)
         = Some (Normal (Num index), w')
         ∧ index ∈ Board.getAvailableMoves cells).
Proof.
  cbv zeta.
  assert (Player.getBestMove 0 10 board0 true 0
            (world_of [X; X; O; O; X; O; Empty; Empty; Empty])
          = Some (Normal (Num 0), world_of [X; X; O; O; X; O; Empty; Empty; Empty]))
    as Hrun' by reflexivity.
  split_and!; [reflexivity | reflexivity | exact Hrun' | reflexivity | reflexivity | |].
  - intros (index & w' & best & entry & Hrun & Hentry & _).
    rewrite Hrun' in Hrun. injection Hrun as <- <-.
    simpl in Hentry. by rewrite lookup_empty in Hentry.
  - intros (index & w' & Hrun & Hin).
    rewrite Hrun' in Hrun. injection Hrun as <- <-.
    apply elem_of_getAvailableMoves in Hin. discriminate Hin.
Qed.

(** C3, amended.  Take a board of nine cells that is not terminal for the
    root call, that is, on which the test [state.finished || depth ===
    this.maxDepth] of [getBestMove] fails at depth 0: the board is not
    finished and the depth cap of the [Player] is not 0.  There is one move
    [index], fixed by the cells and the turn, such that: its score is the
    best score [best] (the maximum of the scores of the moves when
    maximizing, the minimum otherwise); no move of lower position has that
    score; every root call on such a board, whatever the world and the
    fuel, returns [index], which is the first position of the tally entry
    kept under [best], that entry holding the moves tied at [best] in
    ascending order.  A call below the root returns the score only and
    leaves the tally and the callback trace as they were. *)
Theorem root_returns_first_tied_move (maxDepth : Z) (cells : list CellValue)
    (maximizing : bool) :
  length cells = 9%nat →
  finished (Board.getFinishState cells) || bool_decide (0 = maxDepth) = false →
  ∃ scores best index,
    move_scores maxDepth cells maximizing = Some scores
    ∧ best = foldl (op_of maximizing) (best_of maximizing) scores
    ∧ index ∈ Board.getAvailableMoves cells
    ∧ evaluate maxDepth 9 (child cells (cellValue_of maximizing) index)
        (negb maximizing) 1 = Some best
    ∧ (∀ j, j ∈ Board.getAvailableMoves cells →
         ∃ v, evaluate maxDepth 9 (child cells (cellValue_of maximizing) j)
                (negb maximizing) 1 = Some v
              ∧ (if maximizing then v ≤ best else best ≤ v)
              ∧ (v = best → index ≤ j))
    ∧ (∀ fuel board w,
         (10 ≤ fuel)%nat → arrays w !! _state board = Some cells →
         ∃ w' entry,
           Player.getBestMove maxDepth fuel board maximizing 0 w
           = Some (Normal (Num index), w')
           ∧ nodesMap w' !! best = Some entry
           ∧ bucket (tied best (zip scores (Board.getAvailableMoves cells))) = Some entry
           ∧ head (tied best (zip scores (Board.getAvailableMoves cells))) = Some index
           ∧ returnValue_of (Some entry) = Some (Num index))
    ∧ (∀ fuel board w depth cells' maximizing',
         0 < depth → length cells' = 9%nat →
         (length (Board.getAvailableMoves cells') < fuel)%nat →
         arrays w !! _state board = Some cells' →
         ∃ v w',
           Player.getBestMove maxDepth fuel board maximizing' depth w
           = Some (Normal (Num v), w')
           ∧ evaluate maxDepth fuel cells' maximizing' depth = Some v
           ∧ nodesMap w' = nodesMap w ∧ calls w' = calls w).
Proof.
  intros Hlen [Hfin Hcap%bool_decide_eq_false]%orb_false_iff.
  assert (maxDepth ≠ 0) as Hcap' by congruence. clear Hcap.
  destruct (getBestMove_root maxDepth 9 board0 cells maximizing (world_of cells)
              Hlen Hfin Hcap' (le_n _) eq_refl)
    as (scores & _ & index & ties & Hscores & Htied & _).
  set (best := foldl (op_of maximizing) (best_of maximizing) scores) in *.
  set (moves := Board.getAvailableMoves cells) in *.
  pose proof (proj1 (mapM_Some _ _ _) Hscores) as Hall. fold moves in Hall.
  assert (StronglySorted Z.lt moves) as Hsorted.
  { unfold moves. rewrite getAvailableMoves_empties. apply empties_from_sorted. }
  assert ((best, index) ∈ zip scores moves) as Hindex.
  { apply elem_of_tied. rewrite Htied. by left. }
  apply elem_of_lookup_zip_with_1 in Hindex as (k & s & m & [= <- <-] & Hs & Hm).
  exists scores, best, index. split_and!; [done | done | | | | |].
  - by eapply list_elem_of_lookup_2.
  - by apply (Forall2_lookup_lr _ _ _ k _ _ Hall).
  - intros j [kj Hkj]%list_elem_of_lookup.
    destruct (Forall2_lookup_l _ _ _ kj j Hall Hkj) as (v & Hv & Hev).
    exists v. split_and!; [done | |].
    + destruct (foldl_op_bound maximizing scores (best_of maximizing)) as [_ Hbound].
      apply (proj1 (Forall_forall _ _) Hbound). by eapply list_elem_of_lookup_2.
    + intros ->. eapply (tied_head_least scores moves); [done | done |].
      by eapply (elem_of_lookup_zip_with_2 pair).
  - intros fuel board w Hfuel Hb.
    destruct fuel as [|fuel]; [lia|].
    destruct (getBestMove_root maxDepth fuel board cells maximizing w
                Hlen Hfin Hcap' ltac:(lia) Hb)
      as (scores' & extra & index' & ties' & Hscores' & Htied' & Hrun).
    assert (scores' = scores) as -> by congruence.
    fold best moves in Htied', Hrun. rewrite Htied in Htied'.
    injection Htied' as <- <-.
    destruct (bucket (index :: ties)) as [entry|] eqn:Hentry; [|by destruct ties].
    eexists _, entry. split; [exact Hrun|]. simpl nodesMap.
    rewrite tally_all_lookup, Htied.
    split_and!; [done | done | done |].
    rewrite <- Hentry. apply returnValue_of_bucket.
  - intros fuel board w depth cells' maximizing' Hd Hlen' Hfuel Hb.
    destruct (getBestMove_evaluates maxDepth fuel board cells' maximizing' depth w
                Hd Hlen' Hfuel Hb) as (v & extra & Hv & Hrun).
    exists v, (grow extra w). done.
Qed.

Lemma root_returns_first_tied_move_witness :
  let cells := [X; X; O; O; X; O; Empty; Empty; Empty] in
  length cells = 9%nat
  ∧ finished (Board.getFinishState cells) || bool_decide (0 = -1) = false
  ∧ Board.getAvailableMoves cells = [6; 7; 8]
  ∧ move_scores (-1) cells true = Some [-98; 99; 99]
  ∧ ∃ w',
      Player.getBestMove (-1) 10 board0 true 0 (world_of cells)
      = Some (Normal (Num 7), w')
      ∧ nodesMap w' !! 99 = Some (IsString "7,8")
      ∧ returnValue_of (Some (IsString "7,8")) = Some (Num 7).
Proof.
  cbv zeta.
  assert (move_scores (-1) [X; X; O; O; X; O; Empty; Empty; Empty] true
          = Some [-98; 99; 99]) as Hcomputed by (vm_compute; reflexivity).
  split_and!; [reflexivity | reflexivity | reflexivity | exact Hcomputed |].
  destruct (root_returns_first_tied_move (-1)
              [X; X; O; O; X; O; Empty; Empty; Empty] true eq_refl eq_refl)
    as (scores & best & index & Hscores & Hbest & _ & _ & _ & Hroot & _).
  rewrite Hcomputed in Hscores. injection Hscores as Hscores. subst scores best.
  destruct (Hroot 10%nat board0 (world_of [X; X; O; O; X; O; Empty; Empty; Empty])
              (le_n _) eq_refl) as (w' & entry & Hrun & Hentry & Hbucket & Hhead & Hret).
  vm_compute in Hhead. injection Hhead as Hindex. subst index.
  vm_compute in Hbucket. injection Hbucket as Hbucket. subst entry.
  exists w'. split_and!; [exact Hrun | exact Hentry | exact Hret].
Defined.

(** C7 as stated fails on a finished board: the root call on a board
    whose first row X holds returns the score 100, which is no position of
    the board, and does not call the callback. *)
Lemma root_call_on_finished_board_skips_callback :
  let cells := [X; X; X; O; O; Empty; Empty; Empty; Empty] in
  Player.getBestMove (-1) 10 board0 true 0 (world_of cells)
  = Some (Normal (Num 100), world_of cells)
  ∧ calls (world_of cells) = []
  ∧ ¬ (∃ index w',
         Player.getBestMove (-1) 10 board0 true 0 (world_of cells)
         = Some (Normal (Num index), w')
         ∧ calls w' = calls (world_of cells) ++ [Num index]).
Proof.
  cbv zeta. split_and!; [reflexivity | done |].
  intros (index & w' & Hrun & Hcalls).
  assert (Player.getBestMove (-1) 10 board0 true 0
            (world_of [X; X; X; O; O; Empty; Empty; Empty; Empty])
          = Some (Normal (Num 100),
                  world_of [X; X; X; O; O; Empty; Empty; Empty; Empty])) as Hrun'
    by reflexivity.
  rewrite Hrun' in Hrun. injection Hrun as <- <-. simpl in Hcalls. discriminate.
Qed.

(** C7, amended.  On a board of nine cells that is not terminal for the
    root call (the test [state.finished || depth === this.maxDepth] fails
    at depth 0), a call of [getBestMove] with [depth] 0 calls the callback
    exactly once, with the chosen move, which is a position of an [Empty]
    cell, and returns that same move. *)
Theorem root_call_invokes_callback_once (maxDepth : Z) (fuel : nat) (board : Board)
    (cells : list CellValue) (maximizing : bool) (w : World) :
  length cells = 9%nat →
  finished (Board.getFinishState cells) || bool_decide (0 = maxDepth) = false →
  (10 ≤ fuel)%nat → arrays w !! _state board = Some cells →
  ∃ index w',
    Player.getBestMove maxDepth fuel board maximizing 0 w
    = Some (Normal (Num index), w')
    ∧ calls w' = calls w ++ [Num index]
    ∧ index ∈ Board.getAvailableMoves cells.
Proof.
  intros Hlen [Hfin Hcap%bool_decide_eq_false]%orb_false_iff Hfuel Hb.
  destruct fuel as [|fuel]; [lia|].
  destruct (getBestMove_root maxDepth fuel board cells maximizing w
              Hlen Hfin ltac:(congruence) ltac:(lia) Hb)
    as (scores & extra & index & ties & Hscores & Htied & Hrun).
  eexists index, _. split_and!; [exact Hrun | done |].
  assert (index ∈ tied (foldl (op_of maximizing) (best_of maximizing) scores)
                    (zip scores (Board.getAvailableMoves cells))) as Hin
    by (rewrite Htied; by left).
  apply elem_of_tied in Hin. by apply elem_of_zip_r in Hin.
Qed.

Lemma root_call_invokes_callback_once_witness :
  let cells := [X; O; Empty; Empty; Empty; Empty; O; Empty; X] in
  length cells = 9%nat
  ∧ finished (Board.getFinishState cells) || bool_decide (0 = -1) = false
  ∧ (10 ≤ 10)%nat ∧ arrays (world_of cells) !! _state board0 = Some cells
  ∧ ∃ index w',
      Player.getBestMove (-1) 10 board0 true 0 (world_of cells)
      = Some (Normal (Num index), w')
      ∧ calls w' = [Num index].
Proof.
  cbv zeta. split_and!; [done | done | done | done |].
  destruct (root_call_invokes_callback_once (-1) 10 board0
              [X; O; Empty; Empty; Empty; Empty; O; Empty; X] true
              (world_of [X; O; Empty; Empty; Empty; Empty; O; Empty; X])
              eq_refl eq_refl)
    as (index & w' & Hrun & Hcalls & _); [done | done |].
  exists index, w'. split; [exact Hrun | exact Hcalls].
Defined.

(** The depth cap does not matter where the search cannot reach it. *)
Lemma mapM_ext_elem {A B} (f g : A → option B) (l : list A) :
  (∀ x, x ∈ l → f x = g x) → mapM f l = mapM g l.
Proof.
  induction l as [|x l IH]; intros Hext; [done|]. simpl.
  rewrite (Hext x) by (by left). rewrite IH; [done|].
  intros y Hy. apply Hext. by right.
Qed.

Lemma evaluate_cap_irrelevant (cap1 cap2 : Z) (fuel : nat) (cells : list CellValue)
    (maximizing : bool) (depth : Z) :
  (∀ cap, cap = cap1 ∨ cap = cap2 →
          cap < depth ∨ depth + Z.of_nat (length (Board.getAvailableMoves cells)) < cap) →
  evaluate cap1 fuel cells maximizing depth = evaluate cap2 fuel cells maximizing depth.
Proof.
  revert cells maximizing depth.
  induction fuel as [|fuel IH]; intros cells maximizing depth Hcap; [done|].
  simpl.
  rewrite (bool_decide_eq_false_2 (depth = cap1))
    by (destruct (Hcap cap1); [by left | lia | lia]).
  rewrite (bool_decide_eq_false_2 (depth = cap2))
    by (destruct (Hcap cap2); [by right | lia | lia]).
  destruct (finished (Board.getFinishState cells)); [done|]. simpl.
  erewrite mapM_ext_elem; [done|].
  intros index Hin%elem_of_getAvailableMoves. apply IH. intros cap Hc.
  destruct (cellValue_of_allowed maximizing) as [_ Hsymbol].
  pose proof (child_moves_length cells _ index Hin Hsymbol).
  destruct (Hcap cap Hc); lia.
Qed.

Lemma forced_win_scores (maxDepth : Z) :
  maxDepth ≠ 0 →
  ∃ scores,
    move_scores maxDepth [X; X; Empty; O; O; Empty; Empty; Empty; Empty] true = Some scores
    ∧ foldl Z.max (-100) scores = 99
    ∧ tied 99 (zip scores [2; 5; 6; 7; 8]) = [2]
    ∧ Forall (λ v, v ≤ 99) scores.
Proof.
  intros Hcap.
  assert (∀ cap, cap = 1 ∨ cap = 2 ∨ cap = 3 ∨ cap = 4 ∨ cap = 5 ∨ cap = -1 →
            ∃ scores,
              move_scores cap [X; X; Empty; O; O; Empty; Empty; Empty; Empty] true
              = Some scores
              ∧ foldl Z.max (-100) scores = 99
              ∧ tied 99 (zip scores [2; 5; 6; 7; 8]) = [2]
              ∧ Forall (λ v, v ≤ 99) scores) as Hcases.
  { intros cap [-> | [-> | [-> | [-> | [-> | ->]]]]];
      eexists; (split; [vm_compute; reflexivity|]);
      (split_and!; [reflexivity | reflexivity |]);
      repeat (apply List.Forall_cons; [cbv beta; lia|]); apply List.Forall_nil. }
  destruct (decide (1 ≤ maxDepth ≤ 5)) as [Hin | Hout].
  { apply Hcases. lia. }
  destruct (Hcases (-1)) as (scores & Hscores & Hrest); [tauto|].
  exists scores. split; [|done]. rewrite <- Hscores. unfold move_scores.
  apply mapM_ext_elem. intros index Hindex%elem_of_getAvailableMoves.
  apply evaluate_cap_irrelevant. intros cap Hc.
  pose proof (child_moves_length _ X index Hindex) as Hmoves.
  change (cellValue_of true) with X.
  assert (length (Board.getAvailableMoves
                    [X; X; Empty; O; O; Empty; Empty; Empty; Empty]) = 5%nat) as Hfive
    by reflexivity.
  rewrite Hfive in Hmoves. specialize (Hmoves ltac:(done)).
  destruct Hc as [-> | ->]; lia.
Qed.

(** C8.  On the board [X,X,_,O,O,_,_,_,_] with X to move, the root call of
    a [Player] whose depth cap is not 0 (the default cap is -1) returns 2
    and calls the callback once, with 2; the tally it leaves keeps move 2
    alone under the score 99, which is [100 - 1] and the greatest score
    of the tally: the board that move 2 leaves is finished with winner X
    on the first row, and its score at depth 1 is [100 - 1]. *)
Theorem forced_win_returns_2 (maxDepth : Z) (fuel : nat) (board : Board) (w : World) :
  let cells := [X; X; Empty; O; O; Empty; Empty; Empty; Empty] in
  maxDepth ≠ 0 → (10 ≤ fuel)%nat → arrays w !! _state board = Some cells →
  (∃ w', Player.getBestMove maxDepth fuel board true 0 w = Some (Normal (Num 2), w')
         ∧ nodesMap w' !! (100 - 1) = Some (IsNumber 2)
         ∧ (∀ v entry, nodesMap w' !! v = Some entry → v ≤ 100 - 1)
         ∧ calls w' = calls w ++ [Num 2])
  ∧ Board.getFinishState (child cells X 2)
    = {| finished := true; winner := Some (Symbol X); winnerPositions := Some (0, 1, 2) |}
  ∧ (∀ w1 board1,
       arrays w1 !! _state board1 = Some (child cells X 2) →
       Player.getBestMove maxDepth 9 board1 false 1 w1
       = Some (Normal (Num (100 - 1)), w1)).
Proof.
  intros cells Hcap Hfuel Hb. split_and!.
  - destruct fuel as [|fuel]; [lia|].
    destruct (getBestMove_root maxDepth fuel board cells true w)
      as (scores & extra & index & ties & Hscores & Htied & Hrun);
      [done | done | done | lia | done |].
    destruct (forced_win_scores maxDepth Hcap)
      as (scores' & Hscores' & Hbest & Htied' & Hle).
    fold cells in Hscores'. assert (scores' = scores) as -> by congruence.
    change (op_of true) with Z.max in *. change (best_of true) with (-100) in *.
    change (Board.getAvailableMoves cells) with [2; 5; 6; 7; 8] in *.
    rewrite Hbest in Htied. rewrite Htied' in Htied. injection Htied as <- <-.
    eexists. split; [exact Hrun|]. simpl nodesMap. simpl calls. split_and!.
    + change (100 - 1) with 99. by rewrite tally_all_lookup, Htied'.
    + intros v entry Hv. rewrite tally_all_lookup in Hv.
      destruct (tied v (zip scores [2; 5; 6; 7; 8])) as [|j l] eqn:Hj; [done|].
      assert (j ∈ tied v (zip scores [2; 5; 6; 7; 8])) as Hin by (rewrite Hj; by left).
      apply elem_of_tied, elem_of_zip_l in Hin.
      pose proof (proj1 (Forall_forall _ _) Hle _ Hin) as Hv99.
      cbv beta in Hv99. lia.
    + reflexivity.
  - reflexivity.
  - intros w1 board1 Hb1.
    rewrite (getBestMove_leaf maxDepth 8 board1 (child cells X 2) false 1 w1 Hb1)
      by reflexivity.
    reflexivity.
Qed.

Lemma forced_win_returns_2_witness :
  let cells := [X; X; Empty; O; O; Empty; Empty; Empty; Empty] in
  -1 ≠ 0 ∧ (10 ≤ 10)%nat ∧ arrays (world_of cells) !! _state board0 = Some cells
  ∧ ∃ w', Player.getBestMove (-1) 10 board0 true 0 (world_of cells)
          = Some (Normal (Num 2), w')
          ∧ calls w' = [Num 2].
Proof.
  cbv zeta. split_and!; [done | done | done |].
  destruct (forced_win_returns_2 (-1) 10 board0
              (world_of [X; X; Empty; O; O; Empty; Empty; Empty; Empty]))
    as [(w' & Hrun & _ & _ & Hcalls) _]; [done | done | reflexivity |].
  exists w'. split; [exact Hrun | exact Hcalls].
Defined.

(** What a root call on a board of nine cells returns, and the tally it
    leaves, are fixed by the cells and the turn: the world it starts from
    only sets where the copies are allocated and what the callback trace
    begins with. *)
Lemma root_call_result (maxDepth : Z) (cells : list CellValue) (maximizing : bool) :
  length cells = 9%nat →
  ∃ v tally,
    ∀ fuel board w,
      (10 ≤ fuel)%nat → arrays w !! _state board = Some cells →
      ∃ extra called,
        Player.getBestMove maxDepth fuel board maximizing 0 w
        = Some (Normal v, {| arrays := arrays w ++ extra;
                             nodesMap := tally;
                             calls := calls w ++ called |}).
Proof.
  intros Hlen.
  destruct (finished (Board.getFinishState cells) || bool_decide (0 = maxDepth))
    eqn:Hleaf.
  - eexists _, ∅. intros fuel board w Hfuel Hb.
    destruct fuel as [|fuel]; [lia|]. exists [], [].
    rewrite (getBestMove_leaf maxDepth fuel board cells maximizing 0 w Hb Hleaf).
    rewrite (bool_decide_eq_true_2 (0 = 0)) by done.
    unfold set_nodesMap. by rewrite !app_nil_r.
  - apply orb_false_iff in Hleaf as [Hfin Hcap%bool_decide_eq_false].
    assert (maxDepth ≠ 0) as Hcap' by congruence.
    destruct (getBestMove_root maxDepth 9 board0 cells maximizing (world_of cells)
                Hlen Hfin Hcap' (le_n _) eq_refl)
      as (scores & _ & index & ties & Hscores & Htied & _).
    exists (Num index), (tally_all (zip scores (Board.getAvailableMoves cells)) ∅).
    intros fuel board w Hfuel Hb. destruct fuel as [|fuel]; [lia|].
    destruct (getBestMove_root maxDepth fuel board cells maximizing w
                Hlen Hfin Hcap' ltac:(lia) Hb)
      as (scores' & extra & index' & ties' & Hscores' & Htied' & Hrun).
    assert (scores' = scores) as -> by congruence.
    rewrite Htied in Htied'. injection Htied' as <- <-.
    exists extra, [Num index]. exact Hrun.
Qed.

(** C9.  A call of [getBestMove] with [depth] 0 does not depend on what the
    tally holds when it starts: from a world whose tally is [tallied], left
    there by earlier calls on the same [Player], it ends as it does from
    the same world with the empty tally of a [Player] just constructed,
    with the same completion and the same final world; so does a second
    root call, made in the world a first root call left.  On boards of nine
    cells the calls do return: the root call on [board] returns a value
    [v] and leaves a world [fresh] from the empty tally, it returns the
    same [v] and leaves the same [fresh] from every tally, and after a
    first root call on any board [board1] of the heap, the second root
    call, on [board], returns again [v] and leaves the tally of [fresh]. *)
Theorem root_call_ignores_earlier_tally (maxDepth : Z) (fuel : nat) (board : Board)
    (maximizing : bool) (w : World) :
  (∀ tallied : gmap Z NumberOrString,
     Player.getBestMove maxDepth fuel board maximizing 0 (set_nodesMap tallied w)
     = Player.getBestMove maxDepth fuel board maximizing 0 (set_nodesMap ∅ w))
  ∧ (∀ fuel1 board1 maximizing1 c1 w1,
       Player.getBestMove maxDepth fuel1 board1 maximizing1 0 w = Some (c1, w1) →
       Player.getBestMove maxDepth fuel board maximizing 0 w1
       = Player.getBestMove maxDepth fuel board maximizing 0 (set_nodesMap ∅ w1))
  ∧ (∀ cells,
       length cells = 9%nat → (10 ≤ fuel)%nat → arrays w !! _state board = Some cells →
       ∃ v fresh,
         Player.getBestMove maxDepth fuel board maximizing 0 (set_nodesMap ∅ w)
         = Some (Normal v, fresh)
         ∧ (∀ tallied : gmap Z NumberOrString,
              Player.getBestMove maxDepth fuel board maximizing 0 (set_nodesMap tallied w)
              = Some (Normal v, fresh))
         ∧ (∀ fuel1 board1 cells1 maximizing1,
              length cells1 = 9%nat → (10 ≤ fuel1)%nat →
              arrays w !! _state board1 = Some cells1 →
              ∃ v1 w1 w2,
                Player.getBestMove maxDepth fuel1 board1 maximizing1 0 w
                = Some (Normal v1, w1)
                ∧ Player.getBestMove maxDepth fuel board maximizing 0 w1
                  = Some (Normal v, w2)
                ∧ nodesMap w2 = nodesMap fresh)).
Proof.
  assert (∀ w0 : World,
            Player.getBestMove maxDepth fuel board maximizing 0 w0
            = Player.getBestMove maxDepth fuel board maximizing 0 (set_nodesMap ∅ w0))
    as Hclear.
  { intros w0. destruct fuel as [|fuel]; [done|]. simpl.
    by rewrite !(bind_Normal nodesMap_clear _ _ (set_nodesMap ∅ w0) tt). }
  split_and!.
  - intros tallied. by rewrite Hclear.
  - intros fuel1 board1 maximizing1 c1 w1 _. apply Hclear.
  - intros cells Hlen Hfuel Hb.
    destruct (root_call_result maxDepth cells maximizing Hlen) as (v & tally & Hroot).
    destruct (Hroot fuel board (set_nodesMap ∅ w) Hfuel Hb) as (extra & called & Hrun).
    eexists v, _. split_and!; [exact Hrun | |].
    + intros tallied. rewrite (Hclear (set_nodesMap tallied w)). exact Hrun.
    + intros fuel1 board1 cells1 maximizing1 Hlen1 Hfuel1 Hb1.
      destruct (root_call_result maxDepth cells1 maximizing1 Hlen1)
        as (v1 & tally1 & Hroot1).
      destruct (Hroot1 fuel1 board1 w Hfuel1 Hb1) as (extra1 & called1 & Hrun1).
      assert (arrays {| arrays := arrays w ++ extra1; nodesMap := tally1;
                        calls := calls w ++ called1 |} !! _state board = Some cells)
        as Hb'.
      { simpl. by apply lookup_app_l_Some. }
      destruct (Hroot fuel board _ Hfuel Hb') as (extra2 & called2 & Hrun2).
      eexists v1, _, _. split_and!; [exact Hrun1 | exact Hrun2 | reflexivity].
Qed.

Lemma root_call_ignores_earlier_tally_witness :
  let cells1 := [X; X; O; O; X; O; Empty; Empty; Empty] in
  let cells := [X; O; Empty; Empty; Empty; Empty; O; Empty; X] in
  let w := {| arrays := [cells1; cells];
              nodesMap := {[ 99 := IsNumber 7; 0 := IsString "2,3" ]};
              calls := [] |} in
  length cells = 9%nat ∧ length cells1 = 9%nat ∧ (10 ≤ 10)%nat
  ∧ arrays w !! 0%nat = Some cells1 ∧ arrays w !! 1%nat = Some cells
  ∧ ∃ fresh w1 w2,
      Player.getBestMove (-1) 10 (mkBoard 1%nat) true 0 (set_nodesMap ∅ w)
      = Some (Normal (Num 4), fresh)
      ∧ Player.getBestMove (-1) 10 (mkBoard 1%nat) true 0 w = Some (Normal (Num 4), fresh)
      ∧ Player.getBestMove (-1) 10 (mkBoard 0%nat) true 0 w = Some (Normal (Num 7), w1)
      ∧ nodesMap w1 !! 99 = Some (IsString "7,8")
      ∧ Player.getBestMove (-1) 10 (mkBoard 1%nat) true 0 w1 = Some (Normal (Num 4), w2)
      ∧ nodesMap w2 = nodesMap fresh
      ∧ nodesMap fresh !! 99 = Some (IsNumber 4).
Proof.
  cbv zeta.
  set (cells1 := [X; X; O; O; X; O; Empty; Empty; Empty]).
  set (cells := [X; O; Empty; Empty; Empty; Empty; O; Empty; X]).
  set (w := {| arrays := [cells1; cells];
               nodesMap := {[ 99 := IsNumber 7; 0 := IsString "2,3" ]};
               calls := [] |}).
  split_and!; [reflexivity | reflexivity | lia | reflexivity | reflexivity |].
  destruct (root_call_ignores_earlier_tally (-1) 10 (mkBoard 1%nat) true w)
    as (_ & _ & Hreturns).
  destruct (Hreturns cells eq_refl (le_n _) eq_refl) as (v & fresh & Hfresh & Hany & Hsecond).
  destruct (Hsecond 10%nat (mkBoard 0%nat) cells1 true eq_refl (le_n _) eq_refl)
    as (v1 & w1 & w2 & Hrun1 & Hrun2 & Htally).
  assert (∃ u, Player.getBestMove (-1) 10 (mkBoard 1%nat) true 0 (set_nodesMap ∅ w)
               = Some (Normal (Num 4), u)
               ∧ nodesMap u !! 99 = Some (IsNumber 4)) as (u & Hu & Hu99).
  { eexists. split; vm_compute; reflexivity. }
  assert (∃ u1, Player.getBestMove (-1) 10 (mkBoard 0%nat) true 0 w
                = Some (Normal (Num 7), u1)
                ∧ nodesMap u1 !! 99 = Some (IsString "7,8")) as (u1 & Hu1 & Hu199).
  { eexists. split; vm_compute; reflexivity. }
  rewrite Hfresh in Hu. injection Hu as Hv Hu. subst v u.
  rewrite Hrun1 in Hu1. injection Hu1 as Hv1 Hu1. subst v1 u1.
  exists fresh, w1, w2.
  split_and!; [exact Hfresh | | exact Hrun1 | exact Hu199 | exact Hrun2
               | exact Htally | exact Hu99].
  rewrite <- (Hany (nodesMap w)). reflexivity.
Defined.

(** C10.  A call of [getBestMove], at any depth and however it ends,
    leaves the array of the board it was given, and every other array of
    the heap it started from, as they were: the moves are played on fresh
    copies.  On a board of nine cells the root call does return. *)
Theorem getBestMove_leaves_board_unchanged (maxDepth : Z) (fuel : nat) (board : Board)
    (cells : list CellValue) (maximizing : bool) (w : World) :
  arrays w !! _state board = Some cells →
  (∀ depth c w',
     Player.getBestMove maxDepth fuel board maximizing depth w = Some (c, w') →
     arrays w' !! _state board = Some cells
     ∧ ∀ l other, arrays w !! l = Some other → arrays w' !! l = Some other)
  ∧ (length cells = 9%nat → (10 ≤ fuel)%nat →
     ∃ v w',
       Player.getBestMove maxDepth fuel board maximizing 0 w = Some (Normal v, w')
       ∧ arrays w' !! _state board = Some cells).
Proof.
  intros Hb.
  assert (∀ depth c w',
            Player.getBestMove maxDepth fuel board maximizing depth w = Some (c, w') →
            ∀ l other, arrays w !! l = Some other → arrays w' !! l = Some other)
    as Hframe.
  { intros depth c w' Hrun l other Hl.
    destruct (allocates_only_getBestMove maxDepth fuel board maximizing depth
                _ _ _ Hrun) as [extra ->].
    by apply lookup_app_l_Some. }
  split.
  - intros depth c w' Hrun. split; [|by eapply Hframe]. by eapply Hframe.
  - intros Hlen Hfuel. destruct fuel as [|fuel]; [lia|].
    destruct (finished (Board.getFinishState cells) || bool_decide (0 = maxDepth))
      eqn:Hleaf.
    + pose proof (getBestMove_leaf maxDepth fuel board cells maximizing 0 w Hb Hleaf)
        as Hrun.
      eexists _, _. split; [exact Hrun|]. by eapply Hframe.
    + apply orb_false_iff in Hleaf as [Hfin Hcap%bool_decide_eq_false].
      destruct (getBestMove_root maxDepth fuel board cells maximizing w)
        as (scores & extra & index & ties & _ & _ & Hrun);
        [done | done | congruence | lia | done |].
      eexists _, _. split; [exact Hrun|]. by eapply Hframe.
Qed.

Lemma getBestMove_leaves_board_unchanged_witness :
  let cells := [X; O; Empty; Empty; Empty; Empty; O; Empty; X] in
  arrays (world_of cells) !! _state board0 = Some cells
  ∧ ∃ v w',
      Player.getBestMove (-1) 10 board0 true 0 (world_of cells) = Some (Normal v, w')
      ∧ arrays w' !! _state board0 = Some cells.
Proof.
  cbv zeta. split; [reflexivity|].
  destruct (getBestMove_leaves_board_unchanged (-1) 10 board0
              [X; O; Empty; Empty; Empty; Empty; O; Empty; X] true
              (world_of [X; O; Empty; Empty; Empty; Empty; O; Empty; X]) eq_refl)
    as [_ Hreturns].
  apply Hreturns; [reflexivity | apply le_n].
Defined.

(* ================================================================= *)
(** * Further properties of the board *)

Lemma isEmpty_occupied (cells : list CellValue) :
  Board.isEmpty cells = true ↔ occupied cells = 0%nat.
Proof.
  unfold Board.isEmpty, occupied.
  induction cells as [|cell rest IH]; simpl; [done|].
  rewrite andb_true_iff, IH, bool_decide_eq_true.
  destruct (decide (cell ≠ Empty)) as [Hne | He].
  - rewrite filter_cons_True by done. simpl.
    split; [intros [Hc _]; by destruct Hne | intros [=]].
  - rewrite filter_cons_False by done.
    split; [by intros [_ ?] | intros ?; split; [|done]].
    destruct cell; [done | by destruct He ..].
Qed.

Lemma isFull_occupied (cells : list CellValue) :
  Board.isFull cells = true ↔ occupied cells = length cells.
Proof.
  unfold Board.isFull, occupied.
  induction cells as [|cell rest IH]; simpl; [done|].
  rewrite andb_true_iff, IH, bool_decide_eq_true.
  pose proof (length_filter (λ cell, cell ≠ Empty) rest) as Hle.
  destruct (decide (cell ≠ Empty)) as [Hne | He].
  - rewrite filter_cons_True by done. simpl.
    split; [intros [_ ->]; done | intros [= ?]; done].
  - rewrite filter_cons_False by done.
    split; [intros [Hc _]; by destruct He | lia].
Qed.

(** X1.  [isFull] holds exactly when [getAvailableMoves] is empty, and
    [isEmpty] exactly when every position of the array is an available
    move; both hold together only for the array without cells. *)
Theorem isFull_isEmpty_by_moves (cells : list CellValue) :
  (Board.isFull cells = true ↔ Board.getAvailableMoves cells = [])
  ∧ (Board.isEmpty cells = true
     ↔ length (Board.getAvailableMoves cells) = length cells)
  ∧ (Board.isEmpty cells = true ∧ Board.isFull cells = true ↔ cells = []).
Proof.
  pose proof (empties_from_length cells 0) as Hcount.
  rewrite <- getAvailableMoves_empties in Hcount.
  rewrite isFull_occupied, isEmpty_occupied. split_and!.
  - split.
    + intros Hocc. apply nil_length_inv. lia.
    + intros Hnil. rewrite Hnil in Hcount. simpl in Hcount. lia.
  - lia.
  - split.
    + intros [H0 Hlen]. apply nil_length_inv. lia.
    + by intros ->.
Qed.

Lemma calculateGameState_winner (cells : list CellValue) (p1 p2 p3 : Z) :
  finished (Board.calculateGameState cells p1 p2 p3) = true →
  winner (Board.calculateGameState cells p1 p2 p3) = Symbol <$> at_index cells p1
  ∧ winnerPositions (Board.calculateGameState cells p1 p2 p3) = Some (p1, p2, p3).
Proof.
  unfold Board.calculateGameState.
  by destruct (_ && _).
Qed.

(** X2.  What [getFinishState] reports is backed by the cells: a winner
    that is a symbol is never [Empty], comes with the positions of one of
    the eight lines, and the three cells of that line hold it; ['DRAW']
    comes without positions and only for a full array with cells; a state
    that is not finished names no winner and no positions; and on nine
    cells a finished state always names a winner. *)
Theorem getFinishState_sound (cells : list CellValue) :
  (∀ c, winner (Board.getFinishState cells) = Some (Symbol c) →
        c ≠ Empty
        ∧ finished (Board.getFinishState cells) = true
        ∧ ∃ p1 p2 p3,
            (p1, p2, p3) ∈ WINNER_POSITIONS
            ∧ winnerPositions (Board.getFinishState cells) = Some (p1, p2, p3)
            ∧ at_index cells p1 = Some c
            ∧ at_index cells p2 = Some c
            ∧ at_index cells p3 = Some c)
  ∧ (winner (Board.getFinishState cells) = Some DRAW →
     finished (Board.getFinishState cells) = true
     ∧ winnerPositions (Board.getFinishState cells) = None
     ∧ Board.isFull cells = true ∧ cells ≠ [])
  ∧ (finished (Board.getFinishState cells) = false →
     winner (Board.getFinishState cells) = None
     ∧ winnerPositions (Board.getFinishState cells) = None)
  ∧ (length cells = 9%nat → finished (Board.getFinishState cells) = true →
     is_Some (winner (Board.getFinishState cells))).
Proof.
  assert (∀ state,
            List.find (λ state : GameState, finished state)
              (map (λ '(p1, p2, p3), Board.calculateGameState cells p1 p2 p3)
                 WINNER_POSITIONS) = Some state →
            ∃ p1 p2 p3, (p1, p2, p3) ∈ WINNER_POSITIONS
                        ∧ state = Board.calculateGameState cells p1 p2 p3
                        ∧ finished state = true) as Hfound.
  { intros state [Hin Hfin]%find_some.
    apply in_map_iff in Hin as ([[p1 p2] p3] & <- & Hin).
    exists p1, p2, p3. split_and!; [by apply list_elem_of_In | done | done]. }
  unfold Board.getFinishState.
  destruct (Board.isEmpty cells) eqn:He; [by split_and!|].
  destruct (Board.isFull cells) eqn:Hf.
  { split_and!; try done. intros _. split_and!; try done.
    intros ->. done. }
  destruct (List.find _ _) as [state|] eqn:Hfind; [|by split_and!].
  destruct (Hfound state eq_refl) as (p1 & p2 & p3 & Hin & -> & Hfin).
  destruct (calculateGameState_winner cells p1 p2 p3 Hfin) as [Hw Hp].
  split_and!.
  - intros c Hc. rewrite Hw in Hc.
    destruct (at_index cells p1) as [c'|] eqn:H1; [|done].
    injection Hc as ->.
    pose proof Hfin as Hfin'.
    apply calculateGameState_finished in Hfin' as (c' & Hne & H1' & H2 & H3);
      [|by rewrite H1].
    assert (c' = c) as -> by congruence.
    split_and!; [done | done |].
    exists p1, p2, p3. by split_and!.
  - intros Hd. rewrite Hw in Hd. by destruct (at_index cells p1).
  - intros Hnot. congruence.
  - intros Hlen _. rewrite Hw.
    pose proof (proj1 (Forall_forall _ _) WINNER_POSITIONS_in_range _ Hin) as Hr.
    simpl in Hr. destruct (at_index_is_Some cells p1) as [c ->]; [lia | by eexists].
Qed.

Lemma getFinishState_sound_witness :
  let cells := [O; X; X; O; X; Empty; O; Empty; Empty] in
  winner (Board.getFinishState cells) = Some (Symbol O)
  ∧ ∃ p1 p2 p3,
      (p1, p2, p3) ∈ WINNER_POSITIONS
      ∧ winnerPositions (Board.getFinishState cells) = Some (p1, p2, p3)
      ∧ at_index cells p1 = Some O ∧ at_index cells p2 = Some O
      ∧ at_index cells p3 = Some O.
Proof.
  cbv zeta. split; [reflexivity|].
  destruct (getFinishState_sound [O; X; X; O; X; Empty; O; Empty; Empty])
    as (Hsym & _).
  destruct (Hsym O eq_refl) as (_ & _ & Hline). exact Hline.
Defined.

(** X3.  A state that is not finished leaves a move: on an array with at
    least one cell, when [getFinishState] is not finished
    [getAvailableMoves] is not empty, so the loop of [minimax] always has
    a move to try.  The array without cells is the exception: it is not
    finished and has no move. *)
Theorem unfinished_board_has_move (cells : list CellValue) :
  (cells ≠ [] → finished (Board.getFinishState cells) = false →
   Board.getAvailableMoves cells ≠ [])
  ∧ (cells = [] →
     finished (Board.getFinishState cells) = false
     ∧ Board.getAvailableMoves cells = []).
Proof.
  split; [|by intros ->].
  intros Hcells Hfin Hnil.
  pose proof (empties_from_length cells 0) as Hcount.
  rewrite <- getAvailableMoves_empties, Hnil in Hcount. simpl in Hcount.
  assert (Board.isFull cells = true) as Hfull by by apply isFull_occupied.
  unfold Board.getFinishState in Hfin.
  destruct (Board.isEmpty cells) eqn:He.
  - apply isEmpty_occupied in He. apply Hcells, nil_length_inv. lia.
  - by rewrite Hfull in Hfin.
Qed.

Lemma unfinished_board_has_move_witness :
  let cells := [X; O; X; X; O; O; Empty; Empty; Empty] in
  cells ≠ [] ∧ finished (Board.getFinishState cells) = false
  ∧ Board.getAvailableMoves cells ≠ [].
Proof.
  cbv zeta. split_and!; [done | done |].
  destruct (unfinished_board_has_move [X; O; X; X; O; O; Empty; Empty; Empty])
    as [Hmove _].
  apply Hmove; [done | reflexivity].
Defined.

(** ** [insert], once more *)

Lemma insert_true_inv (symbol : CellValue) (position : Z) (cells cells' : list CellValue) :
  Board.insert symbol position cells = Some (Normal true, cells') →
  0 ≤ position ≤ 8 ∧ symbol ≠ Empty ∧ at_index cells position = Some Empty
  ∧ cells' = <[Z.to_nat position := symbol]> cells.
Proof.
  unfold Board.insert.
  destruct (bool_decide (position < 0)) eqn:H0; [done|].
  destruct (bool_decide (position > 8)) eqn:H8; [done|]. simpl.
  apply bool_decide_eq_false in H0, H8.
  destruct (bool_decide (symbol ∈ [O; X])) eqn:Hs; [|done]. simpl.
  apply bool_decide_eq_true in Hs.
  destruct (at_index cells position) as [[| |]|] eqn:Hc; simpl; try done.
  intros [= <-]. split_and!; [lia | lia | | done | done].
  intros ->. apply allowed_symbol in Hs as [|]; [done | done | auto].
Qed.

Lemma insert_result (symbol : CellValue) (position : Z) (cells cells' : list CellValue)
    (c : Completion bool) :
  Board.insert symbol position cells = Some (c, cells') →
  c = Normal true ∨ (c ≠ Normal true ∧ cells' = cells).
Proof.
  unfold Board.insert.
  destruct (_ || _); [intros [= <- <-]; by right|].
  destruct (negb _); [intros [= <- <-]; by right|].
  destruct (truthy _); [intros [= <- <-]; by right|].
  destruct (at_index cells position); [|done].
  intros [= <- <-]. by left.
Qed.

Lemma filter_all {A} (P : A → Prop) `{!∀ x, Decision (P x)} (l : list A) :
  Forall P l → filter P l = l.
Proof.
  induction 1 as [|x l Hx _ IH]; [done|]. by rewrite filter_cons_True, IH.
Qed.

Lemma empties_from_insert (cells : list CellValue) (k : nat) (symbol : CellValue)
    (index : Z) :
  symbol ≠ Empty →
  empties_from (<[k := symbol]> cells) index
  = filter (λ p, p ≠ index + Z.of_nat k) (empties_from cells index).
Proof.
  intros Hs. revert k index.
  induction cells as [|cell rest IH]; intros k index; [done|].
  assert (∀ i, (i < index + 1) →
               filter (λ p, p ≠ i) (empties_from rest (index + 1))
               = empties_from rest (index + 1)) as Hbelow.
  { intros i Hi. apply filter_all, Forall_forall.
    intros p Hp%empties_from_lower_bound. lia. }
  destruct k as [|k]; simpl.
  - rewrite (bool_decide_eq_false_2 (symbol = Empty)) by done.
    case_bool_decide.
    + rewrite filter_cons_False by lia. rewrite Hbelow by lia. done.
    + rewrite Hbelow by lia. done.
  - rewrite IH. replace (index + 1 + Z.of_nat k) with (index + Z.pos (Pos.of_succ_nat k)) by lia.
    case_bool_decide; [|done].
    by rewrite filter_cons_True by lia.
Qed.

(** X4.  On a position whose cell exists, a successful [insert] consumes
    exactly its move: [insert] returns [true] there exactly when the
    position is an available move, at most 8, played with [X] or [O]; and
    afterwards [getAvailableMoves] returns the previous moves without that
    position, the others in the same order.  (At a position at or past the
    end of a shorter array the program's [insert] also returns [true]: that
    case is outside this statement.) *)
Theorem insert_consumes_move (symbol : CellValue) (position : Z)
    (cells : list CellValue) :
  is_Some (at_index cells position) →
  ((∃ cells', Board.insert symbol position cells = Some (Normal true, cells'))
   ↔ position ∈ Board.getAvailableMoves cells ∧ position ≤ 8 ∧ symbol ∈ [O; X])
  ∧ (∀ cells',
       Board.insert symbol position cells = Some (Normal true, cells') →
       position ∈ Board.getAvailableMoves cells
       ∧ Board.getAvailableMoves cells'
         = filter (λ p, p ≠ position) (Board.getAvailableMoves cells)).
Proof.
  intros _. split; [split|].
  - intros (cells' & (Hr & Hs & Hc & ->)%insert_true_inv).
    split_and!; [by apply elem_of_getAvailableMoves | lia |].
    apply allowed_symbol; [auto|]. by destruct symbol; auto.
  - intros (Hc%elem_of_getAvailableMoves & Hr & Hs).
    eexists. apply insert_Empty_cell; [|done|done].
    apply at_index_Some in Hc as [? _]. lia.
  - intros cells' (Hr & Hs & Hc & ->)%insert_true_inv. split.
    + by apply elem_of_getAvailableMoves.
    + rewrite !getAvailableMoves_empties, empties_from_insert by done.
      rewrite Z.add_0_l, Z2Nat.id by lia. done.
Qed.

Lemma insert_consumes_move_witness :
  let cells := [X; O; Empty; Empty; Empty; Empty; O; Empty; X] in
  is_Some (at_index cells 4)
  ∧ Board.insert X 4 cells = Some (Normal true, <[4%nat := X]> cells)
  ∧ 4 ∈ Board.getAvailableMoves cells
  ∧ Board.getAvailableMoves (<[4%nat := X]> cells) = [2; 3; 5; 7].
Proof.
  cbv zeta.
  assert (is_Some (at_index [X; O; Empty; Empty; Empty; Empty; O; Empty; X] 4))
    as Hcell by (by eexists).
  split_and!; [exact Hcell | reflexivity | |].
  - destruct (insert_consumes_move X 4
                [X; O; Empty; Empty; Empty; Empty; O; Empty; X] Hcell) as [_ Hmoves].
    destruct (Hmoves _ eq_refl) as [Hin _]. exact Hin.
  - destruct (insert_consumes_move X 4
                [X; O; Empty; Empty; Empty; Empty; O; Empty; X] Hcell) as [_ Hmoves].
    destruct (Hmoves (<[4%nat := X]> [X; O; Empty; Empty; Empty; Empty; O; Empty; X])
                eq_refl) as [_ Heq].
    rewrite Heq. reflexivity.
Defined.

Lemma occupied_le_insert (cells : list CellValue) (k : nat) (symbol : CellValue) :
  cells !! k = Some Empty → (occupied cells ≤ occupied (<[k := symbol]> cells))%nat.
Proof.
  intros Hk. destruct (decide (symbol = Empty)) as [->|Hs].
  - by rewrite list_insert_id.
  - rewrite occupied_insert by done. lia.
Qed.

(** X5.  Unless [insert] returns [true] the array is left exactly as it
    was.  On a position whose cell exists [insert] always ends, and however
    it ends the array keeps its length, a cell that holds a symbol keeps it
    (no move is ever overwritten), and the number of occupied cells does
    not decrease.  (At a position at or past the end of a shorter array the
    program's [insert] returns [true] and the array grows: that case is
    outside the second part.) *)
Theorem insert_never_overwrites (symbol : CellValue) (position : Z)
    (cells : list CellValue) :
  (∀ c cells',
     Board.insert symbol position cells = Some (c, cells') →
     c ≠ Normal true → cells' = cells)
  ∧ (is_Some (at_index cells position) →
     ∃ c cells',
       Board.insert symbol position cells = Some (c, cells')
       ∧ length cells' = length cells
       ∧ (∀ q v, at_index cells q = Some v → v ≠ Empty → at_index cells' q = Some v)
       ∧ (occupied cells ≤ occupied cells')%nat).
Proof.
  split.
  - intros c cells' Hins Hc.
    destruct (insert_result _ _ _ _ _ Hins) as [-> | [_ ->]]; done.
  - intros [cell Hcell].
    assert (∃ c cells', Board.insert symbol position cells = Some (c, cells'))
      as (c & cells' & Hins).
    { unfold Board.insert. rewrite Hcell.
      destruct (_ || _); [by eexists _, _|].
      destruct (negb _); [by eexists _, _|].
      destruct (truthy _); by eexists _, _. }
    exists c, cells'. split; [exact Hins|].
    destruct (insert_result _ _ _ _ _ Hins) as [-> | [Hc ->]].
    + apply insert_true_inv in Hins as (Hr & Hs & Hempty & ->).
      split_and!; [apply length_insert | |].
      * intros q v Hq Hv. destruct (decide (q = position)) as [->|Hne].
        -- congruence.
        -- rewrite at_index_insert_ne by lia. done.
      * apply at_index_Some in Hempty as [_ Hempty]. by apply occupied_le_insert.
    + by split_and!.
Qed.

Lemma insert_never_overwrites_witness :
  let cells := [X; O; Empty; Empty; Empty; Empty; O; Empty; X] in
  is_Some (at_index cells 4)
  ∧ ∃ cells',
      Board.insert X 4 cells = Some (Normal true, cells')
      ∧ length cells' = length cells
      ∧ at_index cells' 1 = Some O
      ∧ (occupied cells ≤ occupied cells')%nat.
Proof.
  cbv zeta.
  assert (is_Some (at_index [X; O; Empty; Empty; Empty; Empty; O; Empty; X] 4))
    as Hcell by (by eexists).
  split; [exact Hcell|].
  destruct (insert_never_overwrites X 4
              [X; O; Empty; Empty; Empty; Empty; O; Empty; X]) as [_ Hexists].
  destruct (Hexists Hcell) as (c & cells' & Hins & Hlen & Hkeep & Hocc).
  assert (Board.insert X 4 [X; O; Empty; Empty; Empty; Empty; O; Empty; X]
          = Some (Normal true, [X; O; Empty; Empty; X; Empty; O; Empty; X]))
    as Hcomputed by reflexivity.
  rewrite Hcomputed in Hins. injection Hins as Hc Hcells. subst c cells'.
  eexists. split_and!; [reflexivity | exact Hlen | | exact Hocc].
  apply Hkeep; [reflexivity | discriminate].
Defined.

(** X6.  Two moves on different cells commute: when [insert] succeeds at
    [p1] and then at [p2], it also succeeds at [p2] and then at [p1], and
    both orders leave the same array. *)
Theorem insert_commutes (s1 s2 : CellValue) (p1 p2 : Z) (cells a b : list CellValue) :
  Board.insert s1 p1 cells = Some (Normal true, a) →
  Board.insert s2 p2 a = Some (Normal true, b) →
  p1 ≠ p2
  ∧ ∃ a', Board.insert s2 p2 cells = Some (Normal true, a')
          ∧ Board.insert s1 p1 a' = Some (Normal true, b).
Proof.
  intros (Hr1 & Hs1 & Hc1 & ->)%insert_true_inv (Hr2 & Hs2 & Hc2 & ->)%insert_true_inv.
  assert (p1 ≠ p2) as Hne.
  { intros ->. rewrite (at_index_insert_eq _ _ _ _ Hc1) in Hc2. congruence. }
  rewrite at_index_insert_ne in Hc2 by lia.
  assert (∀ s, s ≠ Empty → s ∈ [O; X]) as Hallowed.
  { intros s Hs. apply allowed_symbol; [auto|]. destruct s; auto. done. }
  split; [done|]. exists (<[Z.to_nat p2 := s2]> cells). split.
  - apply insert_Empty_cell; auto.
  - rewrite insert_Empty_cell; auto.
    + do 2 f_equal. apply list_insert_insert_ne. lia.
    + rewrite at_index_insert_ne by lia. done.
Qed.

Lemma insert_commutes_witness :
  let cells := [X; O; Empty; Empty; Empty; Empty; O; Empty; X] in
  ∃ a b a',
    Board.insert X 4 cells = Some (Normal true, a)
    ∧ Board.insert O 2 a = Some (Normal true, b)
    ∧ Board.insert O 2 cells = Some (Normal true, a')
    ∧ Board.insert X 4 a' = Some (Normal true, b).
Proof.
  cbv zeta.
  destruct (insert_commutes X O 4 2
              [X; O; Empty; Empty; Empty; Empty; O; Empty; X]
              [X; O; Empty; Empty; X; Empty; O; Empty; X]
              [X; O; O; Empty; X; Empty; O; Empty; X] eq_refl eq_refl)
    as (_ & a' & H1 & H2).
  eexists _, _, a'. split_and!; [reflexivity | reflexivity | exact H1 | exact H2].
Defined.

(** X7.  An array with cells and without an [Empty] one is always reported
    as a draw, whatever its lines hold, and [getBestMove] scores it 0 at
    every depth: a line completed by the move that fills the board does
    not count. *)
Theorem full_board_is_scored_as_draw (maxDepth : Z) (fuel : nat) (board : Board)
    (cells : list CellValue) (maximizing : bool) (depth : Z) (w : World) :
  cells ≠ [] → Board.isFull cells = true →
  (0 < fuel)%nat → arrays w !! _state board = Some cells →
  Board.getFinishState cells
  = {| winner := Some DRAW; finished := true; winnerPositions := None |}
  ∧ Player.getBestMove maxDepth fuel board maximizing depth w
    = Some (Normal (Num 0), if bool_decide (depth = 0) then set_nodesMap ∅ w else w).
Proof.
  intros Hcells Hfull Hfuel Hb.
  assert (Board.getFinishState cells
          = {| winner := Some DRAW; finished := true; winnerPositions := None |})
    as Hstate.
  { apply getFinishState_full; [|done].
    destruct (Board.isEmpty cells) eqn:He; [|done].
    apply isEmpty_occupied in He. apply isFull_occupied in Hfull.
    destruct Hcells. apply nil_length_inv. lia. }
  split; [done|]. destruct fuel as [|fuel]; [lia|].
  rewrite (getBestMove_leaf maxDepth fuel board cells) by (by rewrite ?Hstate).
  by rewrite Hstate.
Qed.

Lemma full_board_is_scored_as_draw_witness :
  let cells := [X; O; O; O; X; X; X; O; X] in
  cells ≠ [] ∧ Board.isFull cells = true ∧ line_matches cells (0, 4, 8)
  ∧ Player.getBestMove (-1) 1 board0 false 9 (world_of cells)
    = Some (Normal (Num 0), world_of cells).
Proof.
  cbv zeta. split_and!; [done | done | by exists X |].
  destruct (full_board_is_scored_as_draw (-1) 1 board0
              [X; O; O; O; X; X; X; O; X] false 9
              (world_of [X; O; O; O; X; X; X; O; X]))
    as [_ Hrun]; [done | done | lia | done |].
  exact Hrun.
Defined.

(* ================================================================= *)
(** * Further properties of boards on the heap and of the search *)

(** X8.  [insert] works in place on the array the [Board] was constructed
    on: after a successful call the array behind [getState()] holds the
    symbol, every [Board] that shares the array no longer offers the
    position as a move, and no other array of the heap has changed. *)
Theorem insert_is_seen_through_shared_array (board board' : Board)
    (symbol : CellValue) (position : Z) (w w' : World) :
  _state board' = _state board →
  call_insert board symbol position w = Some (Normal true, w') →
  (∃ cells cells',
     read_array (getState board) w = Some (Normal cells, w)
     ∧ read_array (getState board) w' = Some (Normal cells', w')
     ∧ at_index cells position = Some Empty
     ∧ at_index cells' position = Some symbol
     ∧ call_getAvailableMoves board' w'
       = Some (Normal (filter (λ p, p ≠ position) (Board.getAvailableMoves cells)), w'))
  ∧ (∀ l, l ≠ _state board → arrays w' !! l = arrays w !! l)
  ∧ nodesMap w' = nodesMap w ∧ calls w' = calls w.
Proof.
  intros Hshared Hrun. unfold call_insert in Hrun.
  destruct (arrays w !! _state board) as [cells|] eqn:Hb; [|done].
  destruct (Board.insert symbol position cells) as [[c cells']|] eqn:Hins; [|done].
  injection Hrun as -> <-.
  pose proof (insert_true_inv _ _ _ _ Hins) as (Hr & Hs & Hc & Hcells').
  assert (arrays (set_arrays (<[_state board := cells']> (arrays w)) w) !! _state board
          = Some cells') as Hb'.
  { simpl. apply list_lookup_insert_eq. by eapply lookup_lt_Some. }
  split_and!; [|intros l Hl; simpl; by rewrite list_lookup_insert_ne| done | done].
  exists cells, cells'. unfold read_array, getState, call_getAvailableMoves, bind, ret.
  rewrite Hshared, Hb, Hb'. split_and!; [done | done | done | |].
  - subst cells'. by eapply at_index_insert_eq.
  - unfold read_array. rewrite Hb'. do 3 f_equal.
    rewrite Hcells', !getAvailableMoves_empties, empties_from_insert by done.
    rewrite Z.add_0_l, Z2Nat.id by lia. done.
Qed.

Lemma insert_is_seen_through_shared_array_witness :
  let cells := [X; O; Empty; Empty; Empty; Empty; O; Empty; X] in
  ∃ w', call_insert board0 X 4 (world_of cells) = Some (Normal true, w')
        ∧ call_getAvailableMoves (mkBoard 0%nat) w' = Some (Normal [2; 3; 5; 7], w').
Proof.
  cbv zeta. eexists. split; [reflexivity|].
  destruct (insert_is_seen_through_shared_array board0 (mkBoard 0%nat) X 4
              (world_of [X; O; Empty; Empty; Empty; Empty; O; Empty; X]) _
              eq_refl eq_refl) as ((cells & cells' & Hread & _ & _ & _ & Hmoves) & _).
  injection Hread as <-. exact Hmoves.
Defined.

Lemma evaluate_depth_bound (maxDepth : Z) (fuel : nat) (cells : list CellValue)
    (maximizing : bool) (depth v : Z) :
  length cells = 9%nat → 0 < depth →
  depth + Z.of_nat (length (Board.getAvailableMoves cells)) ≤ 100 →
  evaluate maxDepth fuel cells maximizing depth = Some v →
  - (100 - depth) ≤ v ≤ 100 - depth.
Proof.
  revert cells maximizing depth v.
  induction fuel as [|fuel IH]; intros cells maximizing depth v Hlen Hd Hsum Hv;
    [done|].
  simpl in Hv.
  destruct (finished (Board.getFinishState cells) || bool_decide (depth = maxDepth))
    eqn:Hleaf.
  { repeat case_bool_decide; injection Hv as <-; lia. }
  apply orb_false_iff in Hleaf as [Hfin _].
  destruct (mapM _ (Board.getAvailableMoves cells)) as [scores|] eqn:Hscores;
    [|done].
  injection Hv as <-. apply mapM_Some in Hscores.
  assert (Forall (λ s, - (100 - (depth + 1)) ≤ s ≤ 100 - (depth + 1)) scores)
    as Hbounds.
  { eapply Forall2_Forall_r; [done|].
    apply Forall_forall. intros index Hin%elem_of_getAvailableMoves s Hs.
    cbv beta in Hs.
    destruct (cellValue_of_allowed maximizing) as [_ Hsymbol].
    pose proof (child_moves_length cells _ index Hin Hsymbol).
    eapply IH; [| | |exact Hs]; [by rewrite child_length | lia | lia]. }
  assert (scores ≠ []) as Hne.
  { intros ->. apply Forall2_nil_inv_r in Hscores.
    by apply (not_finished_has_move cells). }
  assert (foldl (op_of maximizing) (best_of maximizing) scores ∈ scores) as Hin.
  { apply best_in_scores; [done|].
    eapply Forall_impl; [done|]. intros s Hs. cbv beta in Hs. lia. }
  pose proof (proj1 (Forall_forall _ _) Hbounds _ Hin) as Hbest.
  cbv beta in Hbest. lia.
Qed.

(** X9.  Below the root and up to ply 91 ([0 < depth ≤ 91]), on a board of
    nine cells, the score returned at ply [depth] lies between
    [-(100 - depth)] and [100 - depth]: a win found deeper in the tree
    counts for less, and the initial values [100] and [-100] of [best] are
    never returned.  (A search from the root reaches ply 9 at most; from
    plies above 91 the leaf scores [100 - depth] and [-100 + depth] can
    change sign, and the bounds can fail.) *)
Theorem score_shrinks_with_depth (maxDepth : Z) (fuel : nat) (board : Board)
    (cells : list CellValue) (maximizing : bool) (depth : Z) (w : World) :
  length cells = 9%nat → 0 < depth → depth ≤ 91 →
  (length (Board.getAvailableMoves cells) < fuel)%nat →
  arrays w !! _state board = Some cells →
  ∃ v w',
    Player.getBestMove maxDepth fuel board maximizing depth w
    = Some (Normal (Num v), w')
    ∧ - (100 - depth) ≤ v ≤ 100 - depth
    ∧ -100 < v < 100.
Proof.
  intros Hlen Hd Hd' Hfuel Hb.
  destruct (getBestMove_evaluates maxDepth fuel board cells maximizing depth w
              Hd Hlen Hfuel Hb) as (v & extra & Hv & Hrun).
  pose proof (empties_from_length cells 0) as Hcount.
  rewrite <- getAvailableMoves_empties in Hcount.
  apply evaluate_depth_bound in Hv; [|done|done|lia].
  exists v, (grow extra w). split_and!; [done | lia | lia | lia | lia].
Qed.

Lemma score_shrinks_with_depth_witness :
  let cells := [X; O; X; X; O; O; Empty; Empty; Empty] in
  length cells = 9%nat ∧ 0 < 6 ∧ 6 ≤ 91
  ∧ (length (Board.getAvailableMoves cells) < 4)%nat
  ∧ arrays (world_of cells) !! _state board0 = Some cells
  ∧ ∃ v w',
      Player.getBestMove (-1) 4 board0 false 6 (world_of cells)
      = Some (Normal (Num v), w')
      ∧ - (100 - 6) ≤ v ≤ 100 - 6.
Proof.
  cbv zeta. split_and!; [done | done | done | simpl; lia | done |].
  destruct (score_shrinks_with_depth (-1) 4 board0
              [X; O; X; X; O; O; Empty; Empty; Empty] false 6
              (world_of [X; O; X; X; O; O; Empty; Empty; Empty]))
    as (v & w' & Hrun & Hv & _); [done | done | done | simpl; lia | done |].
  exists v, w'. split; [exact Hrun | exact Hv].
Defined.

Lemma bucket_is_Some (indices : list Z) : is_Some (bucket indices) ↔ indices ≠ [].
Proof.
  destruct indices as [|index [|j rest]]; simpl; split;
    first [done | by intros [? ?] | by eexists].
Qed.

(** X10.  After a root call on a board of nine cells that is not terminal,
    the tally groups the available moves by their score: its keys are
    exactly the scores of the moves, the entry of a key lists, in
    ascending order, exactly the moves with that score, and every
    available move is listed under its score. *)
Theorem root_tally_groups_moves_by_score (maxDepth : Z) (fuel : nat) (board : Board)
    (cells : list CellValue) (maximizing : bool) (w : World) :
  length cells = 9%nat →
  finished (Board.getFinishState cells) || bool_decide (0 = maxDepth) = false →
  (10 ≤ fuel)%nat → arrays w !! _state board = Some cells →
  ∃ scores index w',
    move_scores maxDepth cells maximizing = Some scores
    ∧ Player.getBestMove maxDepth fuel board maximizing 0 w
      = Some (Normal (Num index), w')
    ∧ (∀ v, nodesMap w' !! v
            = bucket (tied v (zip scores (Board.getAvailableMoves cells))))
    ∧ (∀ v, is_Some (nodesMap w' !! v) ↔ v ∈ scores)
    ∧ (∀ j, j ∈ Board.getAvailableMoves cells →
         ∃ v, evaluate maxDepth 9 (child cells (cellValue_of maximizing) j)
                (negb maximizing) 1 = Some v
              ∧ j ∈ tied v (zip scores (Board.getAvailableMoves cells))).
Proof.
  intros Hlen [Hfin Hcap%bool_decide_eq_false]%orb_false_iff Hfuel Hb.
  destruct fuel as [|fuel]; [lia|].
  destruct (getBestMove_root maxDepth fuel board cells maximizing w
              Hlen Hfin ltac:(congruence) ltac:(lia) Hb)
    as (scores & extra & index & ties & Hscores & Htied & Hrun).
  destruct (move_scores_bounds maxDepth cells maximizing scores Hlen Hscores)
    as [Hlength _].
  pose proof (proj1 (mapM_Some _ _ _) Hscores) as Hall.
  exists scores, index. eexists. split_and!; [done | exact Hrun | | |].
  - intros v. simpl. apply tally_all_lookup.
  - intros v. simpl. rewrite tally_all_lookup, bucket_is_Some. split.
    + intros Hne.
      destruct (tied v (zip scores (Board.getAvailableMoves cells)))
        as [|j l] eqn:Hj; [done|].
      assert (j ∈ tied v (zip scores (Board.getAvailableMoves cells))) as Hin
        by (rewrite Hj; by left).
      by apply elem_of_tied, elem_of_zip_l in Hin.
    + intros Hv. destruct (zip_score_move _ _ v Hlength Hv) as [j Hj%elem_of_tied].
      intros Hnil. rewrite Hnil in Hj. by apply elem_of_nil in Hj.
  - intros j [k Hk]%list_elem_of_lookup.
    destruct (Forall2_lookup_l _ _ _ k j Hall Hk) as (v & Hv & Hev).
    exists v. split; [done|]. apply elem_of_tied.
    by eapply (elem_of_lookup_zip_with_2 pair).
Qed.

Lemma root_tally_groups_moves_by_score_witness :
  let cells := [X; O; Empty; Empty; Empty; Empty; O; Empty; X] in
  length cells = 9%nat
  ∧ finished (Board.getFinishState cells) || bool_decide (0 = -1) = false
  ∧ (10 ≤ 10)%nat ∧ arrays (world_of cells) !! _state board0 = Some cells
  ∧ ∃ scores index w',
      move_scores (-1) cells true = Some scores
      ∧ Player.getBestMove (-1) 10 board0 true 0 (world_of cells)
        = Some (Normal (Num index), w')
      ∧ ∀ v, is_Some (nodesMap w' !! v) ↔ v ∈ scores.
Proof.
  cbv zeta. split_and!; [done | done | done | done |].
  destruct (root_tally_groups_moves_by_score (-1) 10 board0
              [X; O; Empty; Empty; Empty; Empty; O; Empty; X] true
              (world_of [X; O; Empty; Empty; Empty; Empty; O; Empty; X])
              eq_refl eq_refl (le_n _) eq_refl)
    as (scores & index & w' & Hscores & Hrun & _ & Hkeys & _).
  exists scores, index, w'. split_and!; [exact Hscores | exact Hrun | exact Hkeys].
Defined.

Lemma tally_under_one_score (m : gmap Z NumberOrString) (v : Z) (indices : list Z) :
  m !! v = None →
  foldl (λ m index, tally v index m) m indices !! v = bucket indices
  ∧ ∀ v', v' ≠ v → foldl (λ m index, tally v index m) m indices !! v' = m !! v'.
Proof.
  intros Hfresh. induction indices as [|index indices [IHv IHo]] using rev_ind.
  - by split.
  - rewrite foldl_snoc. unfold tally at 1 3. split.
    + by rewrite lookup_insert_eq, IHv, bucket_snoc.
    + intros v' Hv'. rewrite lookup_insert_ne by done. by apply IHo.
Qed.

(** X11.  The strings of the tally decode to what was put in them: when
    the moves [first], then those of [rest], are tallied under a score
    that had no entry, the entry is the number [first] when [rest] is
    empty and the string [first,...] otherwise, and what
    [getBestMoveAndExecuteCallback] reads back from it is [first], for any
    integers (negative or of several digits as well); entries under other
    scores are untouched. *)
Theorem tally_first_field_round_trip (m : gmap Z NumberOrString) (v first : Z)
    (rest : list Z) :
  m !! v = None →
  returnValue_of (foldl (λ m index, tally v index m) m (first :: rest) !! v)
  = Some (Num first)
  ∧ to_string <$> (foldl (λ m index, tally v index m) m (first :: rest) !! v)
    = Some (comma_separated first rest)
  ∧ (rest = [] →
     foldl (λ m index, tally v index m) m (first :: rest) !! v = Some (IsNumber first))
  ∧ (∀ v', v' ≠ v →
       foldl (λ m index, tally v index m) m (first :: rest) !! v' = m !! v').
Proof.
  intros Hfresh.
  destruct (tally_under_one_score m v (first :: rest) Hfresh) as [Hv Ho].
  rewrite Hv. split_and!.
  - apply returnValue_of_bucket.
  - destruct (bucket (first :: rest)) as [entry|] eqn:Hentry; [|by destruct rest].
    simpl. f_equal. by apply to_string_bucket.
  - by intros ->.
  - exact Ho.
Qed.

Lemma tally_first_field_round_trip_witness :
  (∅ : gmap Z NumberOrString) !! 0 = None
  ∧ foldl (λ m index, tally 0 index m) ∅ [12; -3; 7] !! 0 = Some (IsString "12,-3,7")
  ∧ returnValue_of (foldl (λ m index, tally 0 index m) ∅ [12; -3; 7] !! 0)
    = Some (Num 12).
Proof.
  split_and!; [done | vm_compute; reflexivity |].
  destruct (tally_first_field_round_trip ∅ 0 12 [-3; 7] (lookup_empty 0))
    as [Hfirst _].
  exact Hfirst.
Defined.

(** X12.  When the board is not terminal for the root call and yet has no
    available move (the array without cells), the root call does not
    throw: the tally stays empty, [moves.get(best)] is [undefined], the
    callback is called once with [undefined] and [undefined] is
    returned. *)
Theorem root_call_without_moves (maxDepth : Z) (fuel : nat) (board : Board)
    (cells : list CellValue) (maximizing : bool) (w : World) :
  finished (Board.getFinishState cells) || bool_decide (0 = maxDepth) = false →
  Board.getAvailableMoves cells = [] →
  (0 < fuel)%nat → arrays w !! _state board = Some cells →
  Player.getBestMove maxDepth fuel board maximizing 0 w
  = Some (Normal Undefined,
          {| arrays := arrays w; nodesMap := ∅; calls := calls w ++ [Undefined] |}).
Proof.
  intros Hleaf Hmoves Hfuel Hb. destruct fuel as [|fuel]; [lia|].
  set (w0 := set_nodesMap ∅ w).
  assert (call_getFinishState board w0 = Some (Normal (Board.getFinishState cells), w0))
    as Hstate.
  { unfold call_getFinishState, read_array, bind, ret. simpl. by rewrite Hb. }
  assert (call_getAvailableMoves board w0 = Some (Normal [], w0)) as Hnone.
  { unfold call_getAvailableMoves, read_array, bind, ret. simpl.
    by rewrite Hb, Hmoves. }
  simpl Player.getBestMove.
  rewrite (bind_Normal nodesMap_clear _ w w0 tt) by done.
  rewrite (bind_Normal _ _ _ _ _ Hstate), Hleaf.
  unfold Player.minimax.
  destruct maximizing; cbv [negb]; rewrite (bind_Normal _ _ _ _ _ Hnone); reflexivity.
Qed.

Lemma root_call_without_moves_witness :
  finished (Board.getFinishState []) || bool_decide (0 = -1) = false
  ∧ Board.getAvailableMoves [] = [] ∧ (0 < 1)%nat
  ∧ arrays (world_of []) !! _state board0 = Some []
  ∧ Player.getBestMove (-1) 1 board0 true 0 (world_of [])
    = Some (Normal Undefined,
            {| arrays := [[]]; nodesMap := ∅; calls := [Undefined] |}).
Proof.
  split_and!; [done | done | lia | done |].
  exact (root_call_without_moves (-1) 1 board0 [] true (world_of [])
           eq_refl eq_refl (le_n _) eq_refl).
Defined.

(** X13.  A depth cap the search cannot reach changes nothing: on a board
    of nine cells that is not finished, two [Player]s whose caps are
    negative (as the default -1) or greater than the number of empty cells
    choose the same move, call the callback with it and leave the same
    tally. *)
Theorem depth_cap_beyond_reach (cap1 cap2 : Z) (fuel : nat) (board : Board)
    (cells : list CellValue) (maximizing : bool) (w : World) :
  length cells = 9%nat → finished (Board.getFinishState cells) = false →
  (cap1 < 0 ∨ Z.of_nat (length (Board.getAvailableMoves cells)) < cap1) →
  (cap2 < 0 ∨ Z.of_nat (length (Board.getAvailableMoves cells)) < cap2) →
  (10 ≤ fuel)%nat → arrays w !! _state board = Some cells →
  ∃ index w1 w2,
    Player.getBestMove cap1 fuel board maximizing 0 w = Some (Normal (Num index), w1)
    ∧ Player.getBestMove cap2 fuel board maximizing 0 w = Some (Normal (Num index), w2)
    ∧ nodesMap w1 = nodesMap w2 ∧ calls w1 = calls w2.
Proof.
  intros Hlen Hfin Hcap1 Hcap2 Hfuel Hb. destruct fuel as [|fuel]; [lia|].
  destruct (getBestMove_root cap1 fuel board cells maximizing w)
    as (scores1 & extra1 & index1 & ties1 & Hscores1 & Htied1 & Hrun1);
    [done | done | lia | lia | done |].
  destruct (getBestMove_root cap2 fuel board cells maximizing w)
    as (scores2 & extra2 & index2 & ties2 & Hscores2 & Htied2 & Hrun2);
    [done | done | lia | lia | done |].
  assert (move_scores cap1 cells maximizing = move_scores cap2 cells maximizing)
    as Hsame.
  { unfold move_scores. apply mapM_ext_elem.
    intros index Hindex%elem_of_getAvailableMoves.
    apply evaluate_cap_irrelevant. intros cap Hc.
    destruct (cellValue_of_allowed maximizing) as [_ Hsymbol].
    pose proof (child_moves_length cells _ index Hindex Hsymbol).
    destruct Hc as [-> | ->]; lia. }
  assert (scores2 = scores1) as -> by congruence.
  assert (index2 = index1) as -> by congruence.
  eexists index1, _, _. split_and!; [exact Hrun1 | exact Hrun2 | done | done].
Qed.

Lemma depth_cap_beyond_reach_witness :
  let cells := [X; O; Empty; Empty; Empty; Empty; O; Empty; X] in
  length cells = 9%nat ∧ finished (Board.getFinishState cells) = false
  ∧ (-1 < 0 ∨ Z.of_nat (length (Board.getAvailableMoves cells)) < -1)
  ∧ (20 < 0 ∨ Z.of_nat (length (Board.getAvailableMoves cells)) < 20)
  ∧ ∃ index w1 w2,
      Player.getBestMove (-1) 10 board0 true 0 (world_of cells)
      = Some (Normal (Num index), w1)
      ∧ Player.getBestMove 20 10 board0 true 0 (world_of cells)
        = Some (Normal (Num index), w2).
Proof.
  cbv zeta. split_and!; [done | done | left; lia | right; simpl; lia |].
  destruct (depth_cap_beyond_reach (-1) 20 10 board0
              [X; O; Empty; Empty; Empty; Empty; O; Empty; X] true
              (world_of [X; O; Empty; Empty; Empty; Empty; O; Empty; X]))
    as (index & w1 & w2 & H1 & H2 & _);
    [done | done | left; lia | right; simpl; lia | lia | done |].
  exists index, w1, w2. split; [exact H1 | exact H2].
Defined.

(** ** Exchanging X and O *)

Lemma at_index_swap (cells : list CellValue) (p : Z) :
  at_index (swap_cell <$> cells) p = swap_cell <$> at_index cells p.
Proof. unfold at_index. case_bool_decide; [done|]. apply list_lookup_fmap. Qed.

Lemma isEmpty_swap (cells : list CellValue) :
  Board.isEmpty (swap_cell <$> cells) = Board.isEmpty cells.
Proof.
  unfold Board.isEmpty. induction cells as [|[| |] rest IH]; simpl; [done|..];
    by rewrite ?IH.
Qed.

Lemma isFull_swap (cells : list CellValue) :
  Board.isFull (swap_cell <$> cells) = Board.isFull cells.
Proof.
  unfold Board.isFull. induction cells as [|[| |] rest IH]; simpl; [done|..];
    by rewrite ?IH.
Qed.

Lemma calculateGameState_swap (cells : list CellValue) (p1 p2 p3 : Z) :
  Board.calculateGameState (swap_cell <$> cells) p1 p2 p3
  = swap_state (Board.calculateGameState cells p1 p2 p3).
Proof.
  unfold Board.calculateGameState. rewrite !at_index_swap.
  destruct (at_index cells p1) as [[| |]|], (at_index cells p2) as [[| |]|],
    (at_index cells p3) as [[| |]|]; reflexivity.
Qed.

Lemma find_finished_swap (states : list GameState) :
  List.find (λ state : GameState, finished state) (swap_state <$> states)
  = swap_state <$> List.find (λ state : GameState, finished state) states.
Proof.
  induction states as [|state rest IH]; [done|]. simpl.
  by destruct (finished state).
Qed.

Lemma getFinishState_swap (cells : list CellValue) :
  Board.getFinishState (swap_cell <$> cells) = swap_state (Board.getFinishState cells).
Proof.
  unfold Board.getFinishState. rewrite isEmpty_swap, isFull_swap.
  destruct (Board.isEmpty cells); [done|]. destruct (Board.isFull cells); [done|].
  assert (map (λ '(p1, p2, p3), Board.calculateGameState (swap_cell <$> cells) p1 p2 p3)
              WINNER_POSITIONS
          = swap_state <$> map (λ '(p1, p2, p3), Board.calculateGameState cells p1 p2 p3)
                             WINNER_POSITIONS) as ->.
  { rewrite <- list_fmap_compose. apply list_fmap_ext.
    intros i [[p1 p2] p3] _. apply calculateGameState_swap. }
  rewrite find_finished_swap. by destruct (List.find _ _).
Qed.

Lemma getAvailableMoves_swap (cells : list CellValue) :
  Board.getAvailableMoves (swap_cell <$> cells) = Board.getAvailableMoves cells.
Proof.
  rewrite !getAvailableMoves_empties. generalize 0.
  induction cells as [|[| |] rest IH]; intros index; simpl; [done|..];
    by rewrite IH.
Qed.

Lemma child_swap (cells : list CellValue) (maximizing : bool) (index : Z) :
  child (swap_cell <$> cells) (cellValue_of (negb maximizing)) index
  = swap_cell <$> child cells (cellValue_of maximizing) index.
Proof.
  unfold child. rewrite list_fmap_insert. by destruct maximizing.
Qed.

Lemma foldl_op_opp (maximizing : bool) (scores : list Z) (best : Z) :
  foldl (op_of (negb maximizing)) (- best) (Z.opp <$> scores)
  = - foldl (op_of maximizing) best scores.
Proof.
  revert best. induction scores as [|s scores IH]; intros best; [done|]. simpl.
  rewrite <- IH. f_equal. destruct maximizing; unfold op_of; simpl; lia.
Qed.

Lemma mapM_fmap_opp {A} (f : A → option Z) (l : list A) :
  mapM (λ x, Z.opp <$> f x) l = fmap Z.opp <$> mapM f l.
Proof.
  induction l as [|x l IH]; [done|]. simpl. rewrite IH.
  destruct (f x); [|done]. simpl. by destruct (mapM f l).
Qed.

Lemma evaluate_swap (maxDepth : Z) (fuel : nat) (cells : list CellValue)
    (maximizing : bool) (depth : Z) :
  evaluate maxDepth fuel (swap_cell <$> cells) (negb maximizing) depth
  = Z.opp <$> evaluate maxDepth fuel cells maximizing depth.
Proof.
  revert cells maximizing depth.
  induction fuel as [|fuel IH]; intros cells maximizing depth; [done|].
  simpl. rewrite getFinishState_swap, getAvailableMoves_swap.
  change (finished (swap_state (Board.getFinishState cells)))
    with (finished (Board.getFinishState cells)).
  destruct (finished (Board.getFinishState cells) || bool_decide (depth = maxDepth)).
  { unfold swap_state. simpl.
    destruct (winner (Board.getFinishState cells)) as [[[| |]|]|]; simpl;
      f_equal; lia. }
  erewrite (mapM_ext_elem _ (λ index, Z.opp <$> evaluate maxDepth fuel
                               (child cells (cellValue_of maximizing) index)
                               (negb maximizing) (depth + 1))).
  2:{ intros index _. by rewrite child_swap, IH. }
  rewrite mapM_fmap_opp.
  destruct (mapM _ (Board.getAvailableMoves cells)) as [scores|]; [|done].
  simpl. f_equal.
  replace (best_of (negb maximizing)) with (- best_of maximizing)
    by (by destruct maximizing).
  apply foldl_op_opp.
Qed.

Lemma tied_opp (scores moves : list Z) (v : Z) :
  tied (- v) (zip (Z.opp <$> scores) moves) = tied v (zip scores moves).
Proof.
  unfold tied. revert moves.
  induction scores as [|s scores IH]; intros [|m moves]; simpl; try done.
  rewrite !filter_cons. simpl.
  destruct (decide (- s = - v)), (decide (s = v)); try lia; simpl; by rewrite IH.
Qed.

(** X14.  The search treats the two players alike.  Take a board of nine
    cells that is not terminal, and the board with X and O exchanged, the
    other player to move: the root calls choose the same move, and the
    tally of the second holds under [v] what the tally of the first holds
    under [-v].  Below the root the two calls return opposite scores. *)
Theorem exchanged_players_same_move (maxDepth : Z) (fuel : nat) (board board' : Board)
    (cells : list CellValue) (maximizing : bool) (w1 w2 : World) :
  length cells = 9%nat →
  (10 ≤ fuel)%nat →
  arrays w1 !! _state board = Some cells →
  arrays w2 !! _state board' = Some (swap_cell <$> cells) →
  (finished (Board.getFinishState cells) || bool_decide (0 = maxDepth) = false →
   ∃ index w1' w2',
     Player.getBestMove maxDepth fuel board maximizing 0 w1
     = Some (Normal (Num index), w1')
     ∧ Player.getBestMove maxDepth fuel board' (negb maximizing) 0 w2
       = Some (Normal (Num index), w2')
     ∧ ∀ v, nodesMap w2' !! v = nodesMap w1' !! (- v))
  ∧ (∀ depth, 0 < depth →
       ∃ v w1' w2',
         Player.getBestMove maxDepth fuel board maximizing depth w1
         = Some (Normal (Num v), w1')
         ∧ Player.getBestMove maxDepth fuel board' (negb maximizing) depth w2
           = Some (Normal (Num (- v)), w2')).
Proof.
  intros Hlen Hfuel Hb1 Hb2.
  pose proof (empties_from_length cells 0) as Hcount.
  rewrite <- getAvailableMoves_empties in Hcount.
  assert (length (swap_cell <$> cells) = 9%nat) as Hlen' by by rewrite length_fmap.
  split.
  - intros [Hfin Hcap%bool_decide_eq_false]%orb_false_iff.
    destruct fuel as [|fuel]; [lia|].
    destruct (getBestMove_root maxDepth fuel board cells maximizing w1)
      as (scores & extra1 & index & ties & Hscores & Htied & Hrun1);
      [done | done | congruence | lia | done |].
    destruct (getBestMove_root maxDepth fuel board' (swap_cell <$> cells)
                (negb maximizing) w2)
      as (scores' & extra2 & index' & ties' & Hscores' & Htied' & Hrun2);
      [done | by rewrite getFinishState_swap | congruence | lia | done |].
    assert (scores' = Z.opp <$> scores) as ->.
    { unfold move_scores in Hscores'.
      rewrite getAvailableMoves_swap in Hscores'.
      erewrite (mapM_ext_elem _ (λ index, Z.opp <$> evaluate maxDepth 9
                                   (child cells (cellValue_of maximizing) index)
                                   (negb maximizing) 1)) in Hscores'.
      2:{ intros j _. by rewrite child_swap, evaluate_swap. }
      rewrite mapM_fmap_opp in Hscores'. unfold move_scores in Hscores.
      rewrite Hscores in Hscores'. by injection Hscores' as <-. }
    rewrite getAvailableMoves_swap in Htied', Hrun2.
    replace (best_of (negb maximizing)) with (- best_of maximizing) in Htied'
      by (by destruct maximizing).
    rewrite foldl_op_opp, tied_opp, Htied in Htied'. injection Htied' as <- <-.
    eexists index, _, _. split_and!; [exact Hrun1 | exact Hrun2 |].
    intros v. simpl. rewrite !tally_all_lookup.
    rewrite <- (tied_opp scores _ (- v)). by rewrite Z.opp_involutive.
  - intros depth Hd.
    destruct (getBestMove_evaluates maxDepth fuel board cells maximizing depth w1)
      as (v & extra1 & Hv & Hrun1); [done | done | lia | done |].
    destruct (getBestMove_evaluates maxDepth fuel board' (swap_cell <$> cells)
                (negb maximizing) depth w2)
      as (v' & extra2 & Hv' & Hrun2);
      [done | done | rewrite getAvailableMoves_swap; lia | done |].
    rewrite evaluate_swap, Hv in Hv'. injection Hv' as <-.
    eexists v, _, _. split; [exact Hrun1 | exact Hrun2].
Qed.

Lemma exchanged_players_same_move_witness :
  let cells := [X; O; Empty; Empty; Empty; Empty; O; Empty; X] in
  length cells = 9%nat ∧ (10 ≤ 10)%nat
  ∧ arrays (world_of cells) !! _state board0 = Some cells
  ∧ arrays (world_of (swap_cell <$> cells)) !! _state board0
    = Some (swap_cell <$> cells)
  ∧ finished (Board.getFinishState cells) || bool_decide (0 = -1) = false
  ∧ ∃ index w1' w2',
      Player.getBestMove (-1) 10 board0 true 0 (world_of cells)
      = Some (Normal (Num index), w1')
      ∧ Player.getBestMove (-1) 10 board0 false 0
          (world_of [O; X; Empty; Empty; Empty; Empty; X; Empty; O])
        = Some (Normal (Num index), w2').
Proof.
  cbv zeta. split_and!; [done | done | done | done | done |].
  destruct (exchanged_players_same_move (-1) 10 board0 board0
              [X; O; Empty; Empty; Empty; Empty; O; Empty; X] true
              (world_of [X; O; Empty; Empty; Empty; Empty; O; Empty; X])
              (world_of [O; X; Empty; Empty; Empty; Empty; X; Empty; O])
              eq_refl (le_n _) eq_refl eq_refl) as [Hroot _].
  destruct (Hroot eq_refl) as (index & w1' & w2' & H1 & H2 & _).
  exists index, w1', w2'. split; [exact H1 | exact H2].
Defined.

(** X15.  The move a root call chooses can be played: on a board of nine
    cells that is not terminal, [insert] of the symbol of the player to
    move at the returned position, on the same board after the call,
    returns [true], and the board then has one available move less. *)
Theorem chosen_move_can_be_played (maxDepth : Z) (fuel : nat) (board : Board)
    (cells : list CellValue) (maximizing : bool) (w : World) :
  length cells = 9%nat →
  finished (Board.getFinishState cells) || bool_decide (0 = maxDepth) = false →
  (10 ≤ fuel)%nat → arrays w !! _state board = Some cells →
  ∃ index w' w'',
    Player.getBestMove maxDepth fuel board maximizing 0 w
    = Some (Normal (Num index), w')
    ∧ call_insert board (if maximizing then X else O) index w'
      = Some (Normal true, w'')
    ∧ arrays w'' !! _state board
      = Some (<[Z.to_nat index := if maximizing then X else O]> cells)
    ∧ call_getAvailableMoves board w''
      = Some (Normal (filter (λ p, p ≠ index) (Board.getAvailableMoves cells)), w'').
Proof.
  intros Hlen [Hfin Hcap%bool_decide_eq_false]%orb_false_iff Hfuel Hb.
  destruct fuel as [|fuel]; [lia|].
  destruct (getBestMove_root maxDepth fuel board cells maximizing w
              Hlen Hfin ltac:(congruence) ltac:(lia) Hb)
    as (scores & extra & index & ties & Hscores & Htied & Hrun).
  assert (at_index cells index = Some Empty) as Hindex.
  { apply elem_of_getAvailableMoves.
    assert (index ∈ tied (foldl (op_of maximizing) (best_of maximizing) scores)
                      (zip scores (Board.getAvailableMoves cells))) as Hin
      by (rewrite Htied; by left).
    apply elem_of_tied in Hin. by apply elem_of_zip_r in Hin. }
  pose proof (available_in_range _ _ Hlen Hindex) as Hrange.
  assert ((if maximizing then X else O) ∈ [O; X]) as Hsym.
  { apply allowed_symbol; [auto|]. destruct maximizing; auto. }
  assert ((if maximizing then X else O) ≠ Empty) as Hne by by destruct maximizing.
  pose proof (lookup_lt_Some _ _ _ Hb) as Hlt.
  eexists index, _, _. split; [exact Hrun|].
  unfold call_insert, call_getAvailableMoves, read_array, bind, ret. simpl.
  rewrite (lookup_app_l_Some _ _ _ _ Hb).
  rewrite insert_Empty_cell by done.
  split_and!; [reflexivity | |].
  - simpl. apply list_lookup_insert_eq. rewrite length_app. lia.
  - simpl. rewrite list_lookup_insert_eq by (rewrite length_app; lia).
    do 3 f_equal.
    rewrite !getAvailableMoves_empties, empties_from_insert by done.
    rewrite Z.add_0_l, Z2Nat.id by lia. done.
Qed.

Lemma chosen_move_can_be_played_witness :
  let cells := [X; O; Empty; Empty; Empty; Empty; O; Empty; X] in
  length cells = 9%nat
  ∧ finished (Board.getFinishState cells) || bool_decide (0 = -1) = false
  ∧ (10 ≤ 10)%nat ∧ arrays (world_of cells) !! _state board0 = Some cells
  ∧ ∃ index w' w'',
      Player.getBestMove (-1) 10 board0 true 0 (world_of cells)
      = Some (Normal (Num index), w')
      ∧ call_insert board0 X index w' = Some (Normal true, w'').
Proof.
  cbv zeta. split_and!; [done | done | done | done |].
  destruct (chosen_move_can_be_played (-1) 10 board0
              [X; O; Empty; Empty; Empty; Empty; O; Empty; X] true
              (world_of [X; O; Empty; Empty; Empty; Empty; O; Empty; X])
              eq_refl eq_refl (le_n _) eq_refl)
    as (index & w' & w'' & Hrun & Hplay & _).
  exists index, w', w''. split; [exact Hrun | exact Hplay].
Defined.

(** ** Immediate wins *)

Lemma winner_is_finished (cells : list CellValue) (c : CellValue) :
  winner (Board.getFinishState cells) = Some (Symbol c) →
  finished (Board.getFinishState cells) = true.
Proof.
  intros Hw. destruct (finished (Board.getFinishState cells)) eqn:Hfin; [done|].
  rewrite (getFinishState_not_finished cells Hfin) in Hw. done.
Qed.

(** The score [100 - 1], or [-100 + 1], of a move of the root tells that the
    move wins at once. *)
Lemma winning_score_inv (maxDepth : Z) (fuel : nat) (cells : list CellValue)
    (maximizing : bool) (v : Z) :
  length cells = 9%nat →
  evaluate maxDepth fuel cells maximizing 1 = Some v →
  (v = 99 → winner (Board.getFinishState cells) = Some (Symbol X))
  ∧ (v = -99 → winner (Board.getFinishState cells) = Some (Symbol O)).
Proof.
  intros Hlen Hv. destruct fuel as [|fuel]; [done|]. simpl in Hv.
  destruct (finished (Board.getFinishState cells) || bool_decide (1 = maxDepth))
    eqn:Hleaf.
  { repeat case_bool_decide; injection Hv as <-; split; intros; (done || lia). }
  apply orb_false_iff in Hleaf as [Hfin _].
  destruct (mapM _ (Board.getAvailableMoves cells)) as [scores|] eqn:Hscores;
    [|done].
  injection Hv as <-. apply mapM_Some in Hscores.
  pose proof (empties_from_length cells 0) as Hcount.
  rewrite <- getAvailableMoves_empties in Hcount.
  assert (Forall (λ s, - (100 - 2) ≤ s ≤ 100 - 2) scores) as Hbounds.
  { eapply Forall2_Forall_r; [done|].
    apply Forall_forall. intros index Hin%elem_of_getAvailableMoves s Hs.
    cbv beta in Hs.
    destruct (cellValue_of_allowed maximizing) as [_ Hsymbol].
    pose proof (child_moves_length cells _ index Hin Hsymbol).
    eapply (evaluate_depth_bound maxDepth fuel _ _ 2); [| | |exact Hs];
      [by rewrite child_length | lia | lia]. }
  assert (foldl (op_of maximizing) (best_of maximizing) scores ∈ scores) as Hin.
  { apply best_in_scores.
    - intros ->. apply Forall2_nil_inv_r in Hscores.
      by apply (not_finished_has_move cells).
    - eapply Forall_impl; [done|]. intros s Hs. cbv beta in Hs. lia. }
  pose proof (proj1 (Forall_forall _ _) Hbounds _ Hin) as Hbest.
  cbv beta in Hbest. split; intros; lia.
Qed.

(** X16.  A win within reach is taken.  On a board of nine cells that is
    not terminal, when some available move [j] leaves a board that
    [getFinishState] reports as won by the player to move, the root call
    returns such a winning move, and the one of lowest position: the
    returned move also wins at once and is not above [j]. *)
Theorem immediate_win_is_taken (maxDepth : Z) (fuel : nat) (board : Board)
    (cells : list CellValue) (maximizing : bool) (w : World) (j : Z) :
  length cells = 9%nat →
  finished (Board.getFinishState cells) || bool_decide (0 = maxDepth) = false →
  (10 ≤ fuel)%nat → arrays w !! _state board = Some cells →
  j ∈ Board.getAvailableMoves cells →
  winner (Board.getFinishState (child cells (cellValue_of maximizing) j))
  = Some (Symbol (cellValue_of maximizing)) →
  ∃ index w',
    Player.getBestMove maxDepth fuel board maximizing 0 w
    = Some (Normal (Num index), w')
    ∧ index ∈ Board.getAvailableMoves cells
    ∧ winner (Board.getFinishState (child cells (cellValue_of maximizing) index))
      = Some (Symbol (cellValue_of maximizing))
    ∧ index ≤ j
    ∧ is_Some (nodesMap w' !! (if maximizing then 100 - 1 else -100 + 1)).
Proof.
  intros Hlen [Hfin Hcap%bool_decide_eq_false]%orb_false_iff Hfuel Hb Hj Hwin.
  destruct fuel as [|fuel]; [lia|].
  destruct (getBestMove_root maxDepth fuel board cells maximizing w
              Hlen Hfin ltac:(congruence) ltac:(lia) Hb)
    as (scores & extra & index & ties & Hscores & Htied & Hrun).
  set (moves := Board.getAvailableMoves cells) in *.
  set (best := foldl (op_of maximizing) (best_of maximizing) scores) in *.
  set (win := if maximizing then 100 - 1 else -100 + 1).
  pose proof (proj1 (mapM_Some _ _ _) Hscores) as Hall. fold moves in Hall.
  pose proof (empties_from_length cells 0) as Hcount.
  rewrite <- getAvailableMoves_empties in Hcount. fold moves in Hcount.
  assert (StronglySorted Z.lt moves) as Hsorted.
  { unfold moves. rewrite getAvailableMoves_empties. apply empties_from_sorted. }
  (* the score of [j] is the winning score *)
  apply list_elem_of_lookup in Hj as [k Hk].
  destruct (Forall2_lookup_l _ _ _ k j Hall Hk) as (v & Hv & Hev).
  assert (v = win) as ->.
  { simpl in Hev. rewrite (winner_is_finished _ _ Hwin) in Hev. simpl in Hev.
    rewrite Hwin in Hev. unfold win.
    destruct maximizing; simpl in Hev; injection Hev as <-; done. }
  (* every score is within [-99, 99], so the winning score is the best *)
  assert (Forall (λ s, - (100 - 1) ≤ s ≤ 100 - 1) scores) as Hbounds.
  { eapply Forall2_Forall_r; [done|].
    apply Forall_forall. intros i Hi%elem_of_getAvailableMoves s Hs. cbv beta in Hs.
    destruct (cellValue_of_allowed maximizing) as [_ Hsymbol].
    pose proof (child_moves_length cells _ i Hi Hsymbol). fold moves in H.
    eapply (evaluate_depth_bound maxDepth 9 _ _ 1); [| | |exact Hs];
      [by rewrite child_length | lia | lia]. }
  assert (best = win) as Hbest.
  { destruct (foldl_op_bound maximizing scores (best_of maximizing)) as [_ Hle].
    pose proof (proj1 (Forall_forall _ _) Hle win (list_elem_of_lookup_2 _ _ _ Hv))
      as Hwin_le.
    assert (best ∈ scores) as Hin.
    { apply best_in_scores.
      - intros ->. by rewrite lookup_nil in Hv.
      - eapply Forall_impl; [exact Hbounds|]. intros s Hs. cbv beta in Hs. lia. }
    pose proof (proj1 (Forall_forall _ _) Hbounds _ Hin) as Hb'.
    cbv beta in Hb'. fold best in Hwin_le. unfold win in *.
    destruct maximizing; lia. }
  (* the returned move has the best score, hence wins; it is the first *)
  assert ((best, index) ∈ zip scores moves) as Hindex.
  { apply elem_of_tied. rewrite Htied. by left. }
  pose proof Hindex as Hindex'.
  apply elem_of_lookup_zip_with_1 in Hindex' as (ki & s & m & [= <- <-] & Hs & Hm).
  pose proof (Forall2_lookup_lr _ _ _ ki _ _ Hall Hm Hs) as Hei. cbv beta in Hei.
  destruct (winning_score_inv maxDepth 9 _ _ best
              ltac:(by rewrite child_length) Hei) as [HX HO].
  eexists index, _. split_and!; [exact Hrun | | | |].
  - by eapply list_elem_of_lookup_2.
  - rewrite Hbest in HX, HO. unfold win in HX, HO.
    destruct maximizing; [by apply HX | by apply HO].
  - eapply (tied_head_least scores moves); [done | exact Htied |].
    rewrite Hbest. by eapply (elem_of_lookup_zip_with_2 pair).
  - simpl. rewrite tally_all_lookup. fold moves. fold win. rewrite <- Hbest.
    fold best in Htied. rewrite Htied. apply bucket_is_Some. done.
Qed.

Lemma immediate_win_is_taken_witness :
  let cells := [O; O; Empty; X; Empty; X; Empty; Empty; Empty] in
  length cells = 9%nat
  ∧ finished (Board.getFinishState cells) || bool_decide (0 = -1) = false
  ∧ (10 ≤ 10)%nat ∧ arrays (world_of cells) !! _state board0 = Some cells
  ∧ 2 ∈ Board.getAvailableMoves cells
  ∧ winner (Board.getFinishState (child cells O 2)) = Some (Symbol O)
  ∧ ∃ index w',
      Player.getBestMove (-1) 10 board0 false 0 (world_of cells)
      = Some (Normal (Num index), w')
      ∧ index ≤ 2.
Proof.
  cbv zeta.
  assert (2 ∈ Board.getAvailableMoves [O; O; Empty; X; Empty; X; Empty; Empty; Empty])
    as Hin by (apply elem_of_getAvailableMoves; reflexivity).
  split_and!; [done | done | done | done | exact Hin | done |].
  destruct (immediate_win_is_taken (-1) 10 board0
              [O; O; Empty; X; Empty; X; Empty; Empty; Empty] false
              (world_of [O; O; Empty; X; Empty; X; Empty; Empty; Empty]) 2
              eq_refl eq_refl (le_n _) eq_refl Hin eq_refl)
    as (index & w' & Hrun & _ & _ & Hle & _).
  exists index, w'. split; [exact Hrun | exact Hle].
Defined.

(** ** Arrays of any length: the position error of [insert] in the search *)

Lemma beyond_child (cells : list CellValue) (cellValue : CellValue) (index q : Z) :
  0 ≤ index ≤ 8 → beyond (child cells cellValue index) q ↔ beyond cells q.
Proof.
  intros Hr. unfold beyond, child.
  split; intros [Hq Hc]; (split; [done|]).
  - by rewrite at_index_insert_ne in Hc by lia.
  - by rewrite at_index_insert_ne by lia.
Qed.

Lemma first_beyond_child (cells : list CellValue) (cellValue : CellValue) (index q : Z) :
  0 ≤ index ≤ 8 → first_beyond (child cells cellValue index) q → first_beyond cells q.
Proof.
  intros Hr [Hq Hleast]. split; [by eapply beyond_child|].
  intros q' Hq'. apply Hleast. by apply beyond_child.
Qed.

Lemma insert_beyond (symbol : CellValue) (position : Z) (cells : list CellValue) :
  8 < position →
  Board.insert symbol position cells = Some (Throw (InvalidPosition position), cells).
Proof.
  intros Hp. unfold Board.insert.
  rewrite (bool_decide_eq_true_2 (position > 8)) by lia. by rewrite orb_true_r.
Qed.

Section AnyLength.

Variable maxDepth : Z.

Lemma forEach_move_completes (fuel : nat) (self : Board → bool → Z → M Value)
    (op : Z → Z → Z) (cellValue : CellValue) (maximizing : bool) (board : Board)
    (depth : Z) (cells : list CellValue) :
  completes fuel self → cellValue ∈ [O; X] → 0 ≤ depth →
  (length (Board.getAvailableMoves cells) ≤ fuel)%nat →
  ∀ (moves : list Z) (best : Z) (w : World),
    StronglySorted Z.lt moves →
    Forall (λ index, at_index cells index = Some Empty) moves →
    (∀ q, beyond cells q → q ∈ moves) →
    arrays w !! _state board = Some cells →
    ∃ c w',
      Player.forEach_move self op cellValue maximizing board depth moves best w
      = Some (c, w')
      ∧ (∃ extra, arrays w' = arrays w ++ extra)
      ∧ calls w' = calls w
      ∧ ((∃ best', c = Normal best' ∧ ∀ q, ¬ beyond cells q)
         ∨ (∃ q, c = Throw (InvalidPosition q) ∧ first_beyond cells q)).
Proof.
  intros Hself Hsym Hd Hfuel moves.
  assert (cellValue ≠ Empty) as Hne.
  { intros ->. apply allowed_symbol in Hsym as [|]; [done | done | auto]. }
  induction moves as [|index rest IH]; intros best w Hsorted Hmoves Hall Hb.
  - exists (Normal best), w. split_and!; [done | by exists []; rewrite app_nil_r | done |].
    left. exists best. split; [done|]. intros q Hq%Hall. by apply elem_of_nil in Hq.
  - apply Forall_cons in Hmoves as [Hindex Hrest].
    apply StronglySorted_inv in Hsorted as [Hsorted Hlow].
    pose proof (proj1 (at_index_Some _ _ _) Hindex) as [Hindex0 _].
    destruct (decide (8 < index)) as [Hbig | Hsmall].
    + (* [insert] throws on the copy *)
      exists (Throw (InvalidPosition index)), (grow [cells] w).
      split_and!; [| by exists [cells] | done |].
      * simpl. unfold spread, read_array, new_Board, getState, call_insert, bind, ret.
        rewrite Hb. simpl. rewrite lookup_app_r by done. rewrite Nat.sub_diag. simpl.
        rewrite insert_beyond by done. do 2 f_equal.
        unfold grow, set_arrays. simpl. f_equal.
        rewrite insert_app_r_alt by done. by rewrite Nat.sub_diag.
      * right. exists index. split; [done|]. split; [done|].
        intros q' Hq'%Hall. apply elem_of_cons in Hq' as [-> | Hq']; [lia|].
        pose proof (proj1 (Forall_forall _ _) Hlow _ Hq'). lia.
    + set (cells' := child cells cellValue index).
      destruct (Hself (mkBoard (length (arrays w))) cells' (negb maximizing) (depth + 1)
                  (grow [cells'] w)) as (c1 & w1 & Hrun & [extra1 Hextra1] & Hcalls1 & Hc1).
      { lia. }
      { pose proof (child_moves_length cells cellValue index Hindex Hne).
        fold cells' in H. lia. }
      { simpl. rewrite lookup_app_r by done. by rewrite Nat.sub_diag. }
      simpl Player.forEach_move.
      rewrite (make_child _ board cells) by (done || lia). fold cells'.
      unfold bind at 1. rewrite Hrun.
      destruct Hc1 as [[v ->] | (q & -> & Hq)].
      2:{ exists (Throw (InvalidPosition q)), w1.
          split_and!; [done | | done |].
          - exists ([cells'] ++ extra1). rewrite Hextra1. simpl. by rewrite <- app_assoc.
          - right. exists q. split; [done|].
            apply (first_beyond_child cells cellValue index); [lia | done]. }
      set (w2 := if bool_decide (depth = 0)
                 then set_nodesMap (tally v index (nodesMap w1)) w1 else w1).
      assert ((if bool_decide (depth = 0) then nodesMap_tally v index else ret tt) w1
              = Some (Normal tt, w2)) as Htally.
      { unfold w2. by destruct (bool_decide (depth = 0)). }
      assert (arrays w2 = arrays w1 ∧ calls w2 = calls w1) as [Harr2 Hcalls2].
      { unfold w2. by destruct (bool_decide (depth = 0)). }
      rewrite (bind_Normal _ _ _ _ _ Htally).
      destruct (IH (op best v) w2) as (c & w' & Hloop & [extra2 Hextra2] & Hcalls & Hc).
      { done. }
      { done. }
      { intros q Hq. pose proof Hq as [Hq8 _]. apply Hall in Hq.
        apply elem_of_cons in Hq as [-> | Hq]; [lia | done]. }
      { rewrite Harr2, Hextra1. simpl. by do 2 apply lookup_app_l_Some. }
      exists c, w'. split_and!; [done | | | done].
      * exists ([cells'] ++ extra1 ++ extra2).
        rewrite Hextra2, Harr2, Hextra1. simpl. by rewrite <- !app_assoc.
      * rewrite Hcalls, Hcalls2, Hcalls1. done.
Qed.

Lemma all_beyond_available (cells : list CellValue) (q : Z) :
  beyond cells q → q ∈ Board.getAvailableMoves cells.
Proof. intros [_ Hq]. by apply elem_of_getAvailableMoves. Qed.

Lemma minimax_completes (fuel : nat) (self : Board → bool → Z → M Value)
    (maximizing : bool) (board : Board) (depth : Z) (cells : list CellValue) (w : World) :
  completes fuel self → 0 ≤ depth →
  (length (Board.getAvailableMoves cells) ≤ fuel)%nat →
  arrays w !! _state board = Some cells →
  (∃ q w',
     Player.minimax self maximizing board depth w = Some (Throw (InvalidPosition q), w')
     ∧ (∃ extra, arrays w' = arrays w ++ extra) ∧ calls w' = calls w
     ∧ first_beyond cells q)
  ∨ (∃ best w',
       Player.minimax self maximizing board depth w
       = (if bool_decide (depth = 0) then getBestMoveAndExecuteCallback best
          else ret (Num best)) w'
       ∧ (∃ extra, arrays w' = arrays w ++ extra) ∧ calls w' = calls w
       ∧ ∀ q, ¬ beyond cells q).
Proof.
  intros Hself Hd Hfuel Hb.
  assert (call_getAvailableMoves board w
          = Some (Normal (Board.getAvailableMoves cells), w)) as Hmoves.
  { unfold call_getAvailableMoves, read_array, bind, ret. by rewrite Hb. }
  assert (StronglySorted Z.lt (Board.getAvailableMoves cells)) as Hsorted.
  { rewrite getAvailableMoves_empties. apply empties_from_sorted. }
  unfold Player.minimax.
  destruct maximizing; cbv [negb]; rewrite (bind_Normal _ _ _ _ _ Hmoves).
  - destruct (forEach_move_completes fuel self Z.max X true board depth cells Hself
                ltac:(right; left) Hd Hfuel (Board.getAvailableMoves cells) (-100) w
                Hsorted (moves_available cells) (all_beyond_available cells) Hb)
      as (c & w' & Hloop & Hextra & Hcalls & [(best & -> & Hno) | (q & -> & Hq)]).
    + right. exists best, w'. by rewrite (bind_Normal _ _ _ _ _ Hloop).
    + left. exists q, w'. unfold bind. by rewrite Hloop.
  - destruct (forEach_move_completes fuel self Z.min O false board depth cells Hself
                ltac:(left) Hd Hfuel (Board.getAvailableMoves cells) 100 w
                Hsorted (moves_available cells) (all_beyond_available cells) Hb)
      as (c & w' & Hloop & Hextra & Hcalls & [(best & -> & Hno) | (q & -> & Hq)]).
    + right. exists best, w'. by rewrite (bind_Normal _ _ _ _ _ Hloop).
    + left. exists q, w'. unfold bind. by rewrite Hloop.
Qed.

Lemma getBestMove_completes (fuel : nat) :
  completes fuel (Player.getBestMove maxDepth fuel).
Proof.
  induction fuel as [|fuel IH]; intros board cells maximizing depth w Hd Hfuel Hb.
  { lia. }
  assert (call_getFinishState board w = Some (Normal (Board.getFinishState cells), w))
    as Hstate.
  { unfold call_getFinishState, read_array, bind, ret. by rewrite Hb. }
  simpl. rewrite (bool_decide_eq_false_2 (depth = 0)) by lia.
  unfold bind at 1. unfold ret at 1.
  rewrite (bind_Normal _ _ _ _ _ Hstate).
  destruct (finished (Board.getFinishState cells) || bool_decide (depth = maxDepth)).
  - exists (Normal (Num (if bool_decide (winner (Board.getFinishState cells)
                                          = Some (Symbol X)) then 100 - depth
                          else if bool_decide (winner (Board.getFinishState cells)
                                               = Some (Symbol O)) then -100 + depth
                          else 0))), w.
    split_and!; [by repeat case_bool_decide | by exists []; rewrite app_nil_r | done |].
    left. by eexists.
  - destruct (minimax_completes fuel _ maximizing board depth cells w IH)
      as [(q & w' & Hrun & Hextra & Hcalls & Hq)
         | (best & w' & Hrun & Hextra & Hcalls & Hno)]; [lia | lia | done | |].
    + exists (Throw (InvalidPosition q)), w'. split_and!; [done | done | done |].
      right. by exists q.
    + rewrite (bool_decide_eq_false_2 (depth = 0)) in Hrun by lia.
      exists (Normal (Num best)), w'. split_and!; [done | done | done |].
      left. by eexists.
Qed.

End AnyLength.

(** X17.  The position error of [insert] comes out of the search.  On an
    array of any length, given enough fuel: when the board is not terminal
    for the root call and some [Empty] cell lies beyond position 8, the
    root call throws the position error for the lowest such position,
    without calling the callback and leaving the array of the board as it
    was; a call below the root ends, and it throws only that same error,
    so that it returns a number on every array without an [Empty] cell
    beyond position 8 (every array of at most nine cells). *)
Theorem search_throws_beyond_bound (maxDepth : Z) (fuel : nat) (board : Board)
    (cells : list CellValue) (maximizing : bool) (w : World) :
  (length (Board.getAvailableMoves cells) < fuel)%nat →
  arrays w !! _state board = Some cells →
  (finished (Board.getFinishState cells) || bool_decide (0 = maxDepth) = false →
   ∀ q, beyond cells q →
     ∃ q' w',
       Player.getBestMove maxDepth fuel board maximizing 0 w
       = Some (Throw (InvalidPosition q'), w')
       ∧ first_beyond cells q'
       ∧ calls w' = calls w
       ∧ arrays w' !! _state board = Some cells)
  ∧ (∀ depth, 0 < depth →
       ∃ c w',
         Player.getBestMove maxDepth fuel board maximizing depth w = Some (c, w')
         ∧ calls w' = calls w
         ∧ arrays w' !! _state board = Some cells
         ∧ (∀ e, c = Throw e → ∃ q', e = InvalidPosition q' ∧ first_beyond cells q')
         ∧ ((length cells ≤ 9)%nat ∨ (∀ q, ¬ beyond cells q) →
            ∃ v, c = Normal (Num v))).
Proof.
  intros Hfuel Hb. split.
  - intros Hleaf q Hq. destruct fuel as [|fuel]; [lia|].
    set (w0 := set_nodesMap ∅ w).
    assert (call_getFinishState board w0
            = Some (Normal (Board.getFinishState cells), w0)) as Hstate.
    { unfold call_getFinishState, read_array, bind, ret. simpl. by rewrite Hb. }
    simpl Player.getBestMove.
    rewrite (bind_Normal nodesMap_clear _ w w0 tt) by done.
    rewrite (bind_Normal _ _ _ _ _ Hstate), Hleaf.
    destruct (minimax_completes fuel _ maximizing board 0 cells w0
                (getBestMove_completes maxDepth fuel))
      as [(q' & w' & Hrun & [extra Hextra] & Hcalls & Hq')
         | (best & w' & _ & _ & _ & Hno)]; [lia | lia | done | |].
    + exists q', w'. split_and!; [done | done | done |].
      rewrite Hextra. simpl. by apply lookup_app_l_Some.
    + by destruct (Hno q).
  - intros depth Hd.
    destruct (getBestMove_completes maxDepth fuel board cells maximizing depth w
                Hd Hfuel Hb) as (c & w' & Hrun & [extra Hextra] & Hcalls & Hc).
    exists c, w'. split_and!; [done | done | | |].
    + rewrite Hextra. by apply lookup_app_l_Some.
    + intros e ->. destruct Hc as [[v [=]] | (q' & [= ->] & Hq')]. by exists q'.
    + intros Hshort. destruct Hc as [Hv | (q' & -> & [[Hq8 Hq'] _])]; [done|].
      destruct Hshort as [Hlen | Hno]; [|by destruct (Hno q')].
      apply at_index_Some in Hq' as [_ Hq'%lookup_lt_Some]. lia.
Qed.

Lemma search_throws_beyond_bound_witness :
  let cells := [X; O; X; O; X; O; O; X; Empty; Empty; Empty] in
  (length (Board.getAvailableMoves cells) < 4)%nat
  ∧ arrays (world_of cells) !! _state board0 = Some cells
  ∧ finished (Board.getFinishState cells) || bool_decide (0 = -1) = false
  ∧ beyond cells 10
  ∧ ∃ q' w',
      Player.getBestMove (-1) 4 board0 true 0 (world_of cells)
      = Some (Throw (InvalidPosition q'), w')
      ∧ first_beyond cells q'.
Proof.
  cbv zeta.
  assert (beyond [X; O; X; O; X; O; O; X; Empty; Empty; Empty] 10) as Hbeyond
    by (split; [lia | reflexivity]).
  split_and!; [simpl; lia | done | done | exact Hbeyond |].
  destruct (search_throws_beyond_bound (-1) 4 board0
              [X; O; X; O; X; O; O; X; Empty; Empty; Empty] true
              (world_of [X; O; X; O; X; O; O; X; Empty; Empty; Empty]))
    as [Hthrow _]; [simpl; lia | done |].
  destruct (Hthrow eq_refl 10 Hbeyond) as (q' & w' & Hrun & Hfirst & _).
  exists q', w'. split; [exact Hrun | exact Hfirst].
Defined.

Example search_throws_at_9 :
  ∃ w', Player.getBestMove (-1) 4 board0 true 0
          (world_of [X; O; X; O; X; O; O; X; Empty; Empty; Empty])
        = Some (Throw (InvalidPosition 9), w').
Proof. eexists. vm_compute. reflexivity. Qed.

(** ** [printFormattedBoard] *)

Lemma cell_piece_units (cell : CellValue) :
  cell_piece cell = [32; symbol_unit cell; 32; 124]%N.
Proof. by destruct cell. Qed.

Lemma formatted_nine (c0 c1 c2 c3 c4 c5 c6 c7 c8 : CellValue) :
  forEach_cell [c0; c1; c2; c3; c4; c5; c6; c7; c8] 0 []
  = [32; symbol_unit c0; 32; 124; 32; symbol_unit c1; 32; 124; 32; symbol_unit c2; 32]%N
    ++ separator
    ++ [32; symbol_unit c3; 32; 124; 32; symbol_unit c4; 32; 124; 32; symbol_unit c5; 32]%N
    ++ separator
    ++ [32; symbol_unit c6; 32; 124; 32; symbol_unit c7; 32; 124; 32; symbol_unit c8; 32]%N.
Proof.
  cbn [forEach_cell]. rewrite !cell_piece_units. reflexivity.
Qed.

Example printFormattedBoard_sample :
  printFormattedBoard [X; O; Empty; Empty; Empty; Empty; O; Empty; X]
  = [ units "%c" ++ units " X | O |   " ++ separator
        ++ units "   |   |   " ++ separator ++ units " O |   | X ";
      units "color: #c11dd4;font-size:16px" ].
Proof. reflexivity. Qed.

(** X18.  The printed board has a fixed layout and shows every cell: for
    nine cells the string passed to [console.log] after ['%c'] has 59
    units, three rows of 11 units with a bar line between them, and the
    unit at offset [24 * (i / 3) + 4 * (i mod 3) + 1] is ['X'], ['O'] or a
    space according to cell [i]; so two boards of nine cells that print
    the same are the same. *)
Theorem printFormattedBoard_shows_cells (cells : list CellValue) :
  length cells = 9%nat →
  ∃ line,
    printFormattedBoard cells = [units "%c" ++ line; units "color: #c11dd4;font-size:16px"]
    ∧ length line = 59%nat
    ∧ (∀ (i : nat) cell,
         cells !! i = Some cell →
         line !! (24 * (i / 3) + 4 * (i mod 3) + 1)%nat = Some (symbol_unit cell))
    ∧ (∀ cells', length cells' = 9%nat →
                 printFormattedBoard cells' = printFormattedBoard cells →
                 cells' = cells).
Proof.
  assert (∀ cells : list CellValue, length cells = 9%nat →
            length (forEach_cell cells 0 []) = 59%nat
            ∧ ∀ (i : nat) cell,
                cells !! i = Some cell →
                forEach_cell cells 0 [] !! (24 * (i / 3) + 4 * (i mod 3) + 1)%nat
                = Some (symbol_unit cell)) as Hlayout.
  { clear cells. intros cells Hlen.
    do 9 (destruct cells as [|? cells]; [done|]). destruct cells; [|done].
    rewrite formatted_nine. split; [reflexivity|].
    intros i cell Hi.
    do 9 (destruct i as [|i]; [injection Hi as <-; reflexivity|]).
    done. }
  intros Hlen. destruct (Hlayout cells Hlen) as [Hlength Hcells].
  exists (forEach_cell cells 0 []). split_and!; [done | done | done |].
  intros cells' Hlen' Hsame. destruct (Hlayout cells' Hlen') as [_ Hcells'].
  unfold printFormattedBoard in Hsame. injection Hsame as Hsame.
  apply list_eq_same_length with 9%nat; [done | done |].
  intros i c' c Hi Hc' Hc.
  pose proof (Hcells' i c' Hc') as H1. pose proof (Hcells i c Hc) as H2.
  rewrite Hsame, H2 in H1. injection H1 as H1.
  by destruct c, c'.
Qed.

Lemma printFormattedBoard_shows_cells_witness :
  let cells := [X; O; Empty; Empty; Empty; Empty; O; Empty; X] in
  length cells = 9%nat
  ∧ ∃ line,
      printFormattedBoard cells
      = [units "%c" ++ line; units "color: #c11dd4;font-size:16px"]
      ∧ length line = 59%nat
      ∧ line !! 49%nat = Some 79%N.
Proof.
  cbv zeta. split; [reflexivity|].
  destruct (printFormattedBoard_shows_cells
              [X; O; Empty; Empty; Empty; Empty; O; Empty; X] eq_refl)
    as (line & Hprint & Hlength & Hcells & _).
  exists line. split_and!; [exact Hprint | exact Hlength |].
  exact (Hcells 6%nat O eq_refl).
Defined.
